(** * Whisper Diary: the transcript merger

    A shallow embedding of [app/utils/transcriptMerger.ts] and the
    properties of its timecode conversions, speaker resolution and
    renderers.

    Conventions of the embedding
    - a JavaScript [number] is an exact rational or [NaN]: binary rounding
      and the infinities are not modelled (the program divides by non-zero
      literals only).  The numbers of the model are those of the program
      on the whole numbers up to [MAX_SAFE_INTEGER], and the statements
      that depend on the value of a number carry this bound;
    - a JavaScript string is a [string] of characters below 256;
    - the records produced by [csv-parse] are taken at the interface types
      the source declares for them: a record in which the cast made the
      text a number, or a short row left a field out, on which the program
      throws a [TypeError], is outside the model. *)

From Stdlib Require Import ZArith QArith Qround Qreduction Lia Lqa Bool List.
From Stdlib Require Import Ascii String Decimal DecimalString DecimalZ DecimalN.
Import ListNotations.

Local Open Scope string_scope.
Local Open Scope Z_scope.

(** ** Characters and strings *)

Definition LF : ascii := "010"%char.
Definition DQUOTE : ascii := "034"%char.
Definition nl : string := String LF EmptyString.

(** [Array.prototype.join] on strings. *)
Fixpoint join (sep : string) (l : list string) : string :=
  match l with
  | [] => EmptyString
  | [x] => x
  | x :: rest => x ++ sep ++ join sep rest
  end.

(** The strings of a list put end to end ([join] with the empty
    separator). *)
Definition flatten (l : list string) : string :=
  fold_right append EmptyString l.

(** [String.prototype.split] with a one-character separator. *)
Fixpoint split (sep : ascii) (s : string) : list string :=
  match s with
  | EmptyString => [EmptyString]
  | String c rest =>
      if Ascii.eqb c sep then EmptyString :: split sep rest
      else match split sep rest with
           | [] => [String c EmptyString]
           | h :: t => String c h :: t
           end
  end.

(** The white space that [trim] and the numeric conversion strip, as far
    as it lies below 256: TAB, LF, VT, FF, CR, SPACE and NO-BREAK SPACE. *)
Definition isWhiteSpace (c : ascii) : bool :=
  let n := nat_of_ascii c in
  ((9 <=? n) && (n <=? 13))%nat || (n =? 32)%nat || (n =? 160)%nat.

Fixpoint trimStart (s : string) : string :=
  match s with
  | EmptyString => EmptyString
  | String c rest => if isWhiteSpace c then trimStart rest else s
  end.

Fixpoint trimEnd (s : string) : string :=
  match s with
  | EmptyString => EmptyString
  | String c rest =>
      match trimEnd rest with
      | EmptyString => if isWhiteSpace c then EmptyString else String c EmptyString
      | r => String c r
      end
  end.

(** [String.prototype.trim]. *)
Definition trim (s : string) : string := trimEnd (trimStart s).

(** [String.prototype.padStart] with a one-character filler. *)
Definition padStart (targetLength : nat) (padChar : ascii) (s : string) : string :=
  string_of_list_ascii (repeat padChar (targetLength - String.length s)) ++ s.

(** [String.prototype.includes]. *)
Fixpoint includes (s sub : string) : bool :=
  String.prefix sub s ||
  match s with
  | EmptyString => false
  | String _ rest => includes rest sub
  end.

(** ** Numbers *)

Inductive number : Type :=
| Num (q : Q)
| NaN.

(** Finite results are kept in lowest terms, so that equal numbers are
    equal terms. *)
Definition num (q : Q) : number := Num (Qred q).

Definition ofZ (z : Z) : number := Num (inject_Z z).

Definition num_add (a b : number) : number :=
  match a, b with
  | Num x, Num y => num (x + y)
  | _, _ => NaN
  end.

Definition num_sub (a b : number) : number :=
  match a, b with
  | Num x, Num y => num (x - y)
  | _, _ => NaN
  end.

Definition num_mul (a b : number) : number :=
  match a, b with
  | Num x, Num y => num (x * y)
  | _, _ => NaN
  end.

(** [a / b]; a zero divisor (an infinity or [NaN] in JavaScript) does not
    occur in this program and is mapped to [NaN]. *)
Definition num_div (a b : number) : number :=
  match a, b with
  | Num x, Num y => if Qeq_bool y 0 then NaN else num (x / y)
  | _, _ => NaN
  end.

(** Truncation towards zero. *)
Definition Qtrunc (q : Q) : Z := Z.quot (Qnum q) (Zpos (Qden q)).

(** [a % b]: the remainder has the sign of the dividend. *)
Definition num_rem (a b : number) : number :=
  match a, b with
  | Num x, Num y =>
      if Qeq_bool y 0 then NaN
      else num (x - y * inject_Z (Qtrunc (x / y)))
  | _, _ => NaN
  end.

(** [a >= b] and [a <= b]: false as soon as one side is [NaN]. *)
Definition num_ge (a b : number) : bool :=
  match a, b with
  | Num x, Num y => Qle_bool y x
  | _, _ => false
  end.

Definition num_le (a b : number) : bool :=
  match a, b with
  | Num x, Num y => Qle_bool x y
  | _, _ => false
  end.

(** [Number.MAX_SAFE_INTEGER], 2^53 - 1: up to it every whole number is a
    number of the program, and the arithmetic of the program on the whole
    numbers is exact. *)
Definition MAX_SAFE_INTEGER : Z := 9007199254740991.

(** [Math.floor] yields an integer or [NaN]; the type records it: [None]
    is [NaN]. *)
Definition Math_floor (a : number) : option Z :=
  match a with
  | Num x => Some (Qfloor x)
  | NaN => None
  end.

Definition ofInt (i : option Z) : number :=
  match i with
  | Some z => ofZ z
  | None => NaN
  end.

(** [Number.prototype.toString] on the result of [Math.floor]: the decimal
    digits, which is what the program writes for a whole number below
    10^21 (from there on it writes an exponent, outside the model). *)
Definition toString (i : option Z) : string :=
  match i with
  | Some z => NilEmpty.string_of_int (Z.to_int z)
  | None => "NaN"
  end.

(** The conversion [Number(s)] of a string: white space is stripped, the
    empty string is [0], and an optionally signed run of decimal digits is
    its value.  Every other string is [NaN]; the literals with a fraction,
    an exponent or a radix prefix, and [Infinity], are outside the model. *)
Definition digitsValue (s : string) : number :=
  match NilZero.uint_of_string s with
  | Some d => ofZ (Z.of_uint d)
  | None => NaN
  end.

Definition Number (s : string) : number :=
  match trim s with
  | EmptyString => ofZ 0
  | String c rest =>
      if Ascii.eqb c "-" then num_sub (ofZ 0) (digitsValue rest)
      else if Ascii.eqb c "+" then digitsValue rest
      else digitsValue (String c rest)
  end.

(** ** The records of the source *)

Record WhisperSegment : Type := {
  start : number;
  end_ : number;
  text : string
}.

Record PremiereSegment : Type := {
  Speaker_Name : string;
  Start_Time : string;
  End_Time : string;
  Text : string
}.

Record EnhancedSegment : Type := {
  speaker : string;
  startTime : number;
  endTime : number;
  seg_text : string
}.

Record TranscriptOutput : Type := {
  csv : string;
  markdownWithTimestamps : string;
  markdownClean : string
}.

(** ** Timecodes *)

(** Convert timecode (HH;MM;SS;FF) to milliseconds.  A component that the
    split does not produce is [undefined], and arithmetic on it is [NaN]. *)
Definition timecodeToMs (timecode : string) : number :=
  let parts := map Number (split ";" timecode) in
  let hours := nth 0 parts NaN in
  let minutes := nth 1 parts NaN in
  let seconds := nth 2 parts NaN in
  let frames := nth 3 parts NaN in
  num_add
    (num_add
       (num_add (num_mul hours (ofZ 3600000)) (num_mul minutes (ofZ 60000)))
       (num_mul seconds (ofZ 1000)))
    (ofInt (Math_floor (num_mul frames (num_div (ofZ 1000) (ofZ 30))))).

(** Convert milliseconds to timecode. *)
Definition msToTimecode (ms : number) : string :=
  let hours := Math_floor (num_div ms (ofZ 3600000)) in
  let minutes := Math_floor (num_div (num_rem ms (ofZ 3600000)) (ofZ 60000)) in
  let seconds := Math_floor (num_div (num_rem ms (ofZ 60000)) (ofZ 1000)) in
  let frames :=
    Math_floor (num_div (num_mul (num_rem ms (ofZ 1000)) (ofZ 30)) (ofZ 1000)) in
  padStart 2 "0" (toString hours) ++ ";" ++
  padStart 2 "0" (toString minutes) ++ ";" ++
  padStart 2 "0" (toString seconds) ++ ";" ++
  padStart 2 "0" (toString frames).

(** ** Speaker resolution *)

(** Find the speaker for a given timestamp: the [for ... of] loop with its
    early [return]. *)
Fixpoint findSpeakerAtTime (timeMs : number) (premiereSegments : list PremiereSegment)
  : string :=
  match premiereSegments with
  | [] => "Unknown"
  | segment :: rest =>
      let startMs := timecodeToMs (Start_Time segment) in
      let endMs := timecodeToMs (End_Time segment) in
      if num_ge timeMs startMs && num_le timeMs endMs
      then Speaker_Name segment
      else findSpeakerAtTime timeMs rest
  end.

(** ** The grouped-text renderer *)

(** The objects pushed on [currentSegments]. *)
Record Entry : Type := {
  e_text : string;
  e_startTime : number;
  e_endTime : number
}.

Definition entryOf (segment : EnhancedSegment) : Entry :=
  {| e_text := seg_text segment;
     e_startTime := startTime segment;
     e_endTime := endTime segment |}.

(** The three mutable locals of [generateMarkdown]. *)
Record MdState : Type := {
  markdown : string;
  currentSpeaker : string;
  currentSegments : list Entry
}.

Definition initialState : MdState :=
  {| markdown := EmptyString; currentSpeaker := EmptyString; currentSegments := [] |}.

(** One line of a block (the body of the inner [forEach]). *)
Definition renderEntry (includeTimestamps : bool) (seg : Entry) : string :=
  if includeTimestamps
  then "[" ++ msToTimecode (e_startTime seg) ++ " - "
           ++ msToTimecode (e_endTime seg) ++ "] " ++ e_text seg ++ nl
  else e_text seg ++ nl.

(** The inner [forEach]: appends one line per collected segment. *)
Definition renderEntries (includeTimestamps : bool) (segs : list Entry) (md : string)
  : string :=
  fold_left (fun acc seg => acc ++ renderEntry includeTimestamps seg) segs md.

(** The body of the outer [forEach] callback, at position [index] of an
    array of [len] segments. *)
Definition visit (includeTimestamps : bool) (len : nat)
    (st : MdState) (segment : EnhancedSegment) (index : nat) : MdState :=
  let isLast := Z.of_nat index =? Z.of_nat len - 1 in
  if negb (String.eqb (speaker segment) (currentSpeaker st)) || isLast then
    let collected :=
      if isLast then (currentSegments st ++ [entryOf segment])%list
      else currentSegments st in
    let md :=
      if (0 <? Z.of_nat (List.length collected))
      then renderEntries includeTimestamps collected
             (markdown st ++ "**" ++ currentSpeaker st ++ "**" ++ nl) ++ nl
      else markdown st in
    {| markdown := md;
       currentSpeaker := speaker segment;
       currentSegments := if negb isLast then [entryOf segment] else [] |}
  else
    {| markdown := markdown st;
       currentSpeaker := currentSpeaker st;
       currentSegments := (currentSegments st ++ [entryOf segment])%list |}.

(** [Array.prototype.forEach] with the index passed to the callback,
    threading the state the callback mutates. *)
Fixpoint forEachFrom {A St : Type} (f : St -> A -> nat -> St)
    (l : list A) (index : nat) (st : St) : St :=
  match l with
  | [] => st
  | x :: rest => forEachFrom f rest (S index) (f st x index)
  end.

(** Generate markdown from enhanced segments. *)
Definition generateMarkdown (segments : list EnhancedSegment)
    (includeTimestamps : bool) : string :=
  markdown
    (forEachFrom (visit includeTimestamps (List.length segments))
       segments 0%nat initialState).

(** ** The delimited-table renderer *)

(** [csv-stringify/sync] under the options of the source: [header: true]
    with the four [columns] writes the column names as first record, also
    when there is no data; [quoted: true] wraps every non-empty field in
    [quote]; a quote inside a field is preceded by [escape], here the quote
    itself; fields are joined by a comma and every record ends in a line
    feed. *)
Fixpoint escapeQuotes (s : string) : string :=
  match s with
  | EmptyString => EmptyString
  | String c rest =>
      if Ascii.eqb c DQUOTE
      then String DQUOTE (String DQUOTE (escapeQuotes rest))
      else String c (escapeQuotes rest)
  end.

Definition quoteField (value : string) : string :=
  match value with
  | EmptyString => EmptyString
  | _ => String DQUOTE (escapeQuotes value ++ String DQUOTE EmptyString)
  end.

Definition stringifyRecord (fields : list string) : string :=
  join "," (map quoteField fields) ++ nl.

Definition columns : list string := ["speaker"; "startTime"; "endTime"; "text"].

Definition stringify (records : list (list string)) : string :=
  stringifyRecord columns ++ flatten (map stringifyRecord records).

(** The object handed to [stringify] for one segment, in column order. *)
Definition csvRow (segment : EnhancedSegment) : list string :=
  [ speaker segment;
    msToTimecode (startTime segment);
    msToTimecode (endTime segment);
    seg_text segment ].

(** ** The merge *)

(** Enhance Whisper segments with speaker information: the speaker is
    looked up at the midpoint of the segment.  The midpoint is exact here;
    the program rounds it, to a number that is still between the start and
    the end when their difference does not overflow. *)
Definition enhance (premiereSegments : list PremiereSegment)
    (whisperSegment : WhisperSegment) : EnhancedSegment :=
  let midpointMs :=
    num_add (start whisperSegment)
      (num_div (num_sub (end_ whisperSegment) (start whisperSegment)) (ofZ 2)) in
  let speaker := findSpeakerAtTime midpointMs premiereSegments in
  {| speaker := speaker;
     startTime := start whisperSegment;
     endTime := end_ whisperSegment;
     seg_text := trim (text whisperSegment) |}.

Definition enhanceSegments (whisperSegments : list WhisperSegment)
    (premiereSegments : list PremiereSegment) : list EnhancedSegment :=
  map (enhance premiereSegments) whisperSegments.

(** The three renders of the enhanced segments. *)
Definition renderAll (enhancedSegments : list EnhancedSegment) : TranscriptOutput :=
  {| csv := stringify (map csvRow enhancedSegments);
     markdownWithTimestamps := generateMarkdown enhancedSegments true;
     markdownClean := generateMarkdown enhancedSegments false |}.

(** What a call does: it returns a value or throws. *)
Inductive outcome (A : Type) : Type :=
| Returned (value : A)
| Thrown (message : string).
Arguments Returned {A} value.
Arguments Thrown {A} message.

Section Merge.

(** [csv-parse/sync] under the two option sets of the source, from the
    raw text to the records, or the error it throws. *)
Variable parseWhisper : string -> outcome (list WhisperSegment).
Variable parsePremiere : string -> outcome (list PremiereSegment).

Definition mergeTranscripts (whisperCsv premiereCsv : string)
  : outcome TranscriptOutput :=
  match parseWhisper whisperCsv with
  | Thrown e => Thrown e
  | Returned whisperSegments =>
      match parsePremiere premiereCsv with
      | Thrown e => Thrown e
      | Returned premiereSegments =>
          Returned (renderAll (enhanceSegments whisperSegments premiereSegments))
      end
  end.

End Merge.

(** ** Vocabulary of the statements *)

(** A text given line by line, every line ended by a line feed. *)
Definition unlines (ls : list string) : string :=
  flatten (map (fun l => l ++ nl) ls).

(** A field between double quotes. *)
Definition quoted (s : string) : string :=
  String DQUOTE (s ++ String DQUOTE EmptyString).

(** The segment and the markers of the one-segment scenario: the marker
    with its timecodes written with colons, and with semicolons. *)
Definition helloSegment : WhisperSegment :=
  {| start := ofZ 1000; end_ := ofZ 3000; text := "hello" |}.

Definition aliceMarkerColons : PremiereSegment :=
  {| Speaker_Name := "Alice"; Start_Time := "00:00:00:00";
     End_Time := "00:00:05:00"; Text := EmptyString |}.

Definition aliceMarker : PremiereSegment :=
  {| Speaker_Name := "Alice"; Start_Time := "00;00;00;00";
     End_Time := "00;00;05;00"; Text := EmptyString |}.

Definition aliceHello : EnhancedSegment :=
  {| speaker := "Alice"; startTime := ofZ 1000; endTime := ofZ 3000;
     seg_text := "hello" |}.

Definition aliceRowQuoted : string :=
  join "," [quoted "Alice"; quoted "00;00;01;00"; quoted "00;00;03;00"; quoted "hello"].

Definition aliceRowBare : string := "Alice,00;00;01;00,00;00;03;00,hello".

(** An aligned segment with given speaker and text, from 0 to 1500 ms. *)
Definition said (who what : string) : EnhancedSegment :=
  {| speaker := who; startTime := ofZ 0; endTime := ofZ 1500; seg_text := what |}.

(** The interval of a marker contains [m], both ends included. *)
Definition intervalContains (m : number) (marker : PremiereSegment) : bool :=
  num_le (timecodeToMs (Start_Time marker)) m &&
  num_le m (timecodeToMs (End_Time marker)).

(** Speaker resolution as the specification words it: the label of the
    first marker whose interval contains [m], the sentinel when none does. *)
Definition resolveSpeaker (m : number) (markers : list PremiereSegment) : string :=
  match find (intervalContains m) markers with
  | Some marker => Speaker_Name marker
  | None => "Unknown"
  end.

(** A marker labelled with the sentinel itself. *)
Definition unknownMarker : PremiereSegment :=
  {| Speaker_Name := "Unknown"; Start_Time := "00;00;00;00";
     End_Time := "00;00;05;00"; Text := EmptyString |}.

(** A rendered block: the heading and the segments listed under it. *)
Record Block : Type := {
  heading : string;
  entries : list Entry
}.

(** The renderer with its output kept as blocks instead of text: the same
    locals and the same branches as [visit]. *)
Record GroupState : Type := {
  flushed : list Block;
  groupSpeaker : string;
  pending : list Entry
}.

Definition collect (len : nat) (st : GroupState) (segment : EnhancedSegment)
    (index : nat) : GroupState :=
  let isLast := Z.of_nat index =? Z.of_nat len - 1 in
  if negb (String.eqb (speaker segment) (groupSpeaker st)) || isLast then
    let collected :=
      if isLast then (pending st ++ [entryOf segment])%list else pending st in
    {| flushed :=
         if (0 <? Z.of_nat (List.length collected))
         then (flushed st ++ [{| heading := groupSpeaker st; entries := collected |}])%list
         else flushed st;
       groupSpeaker := speaker segment;
       pending := if negb isLast then [entryOf segment] else [] |}
  else
    {| flushed := flushed st;
       groupSpeaker := groupSpeaker st;
       pending := (pending st ++ [entryOf segment])%list |}.

Definition groupBlocks (segments : list EnhancedSegment) : list Block :=
  flushed
    (forEachFrom (collect (List.length segments)) segments 0%nat
       {| flushed := []; groupSpeaker := EmptyString; pending := [] |}).

(** The two ways a segment is written on its line. *)
Definition plainLine (seg : Entry) : string := e_text seg.

Definition stampedLine (seg : Entry) : string :=
  "[" ++ msToTimecode (e_startTime seg) ++ " - "
      ++ msToTimecode (e_endTime seg) ++ "] " ++ plainLine seg.

(** A block as text: the heading in bold, one line per segment, and an
    empty line. *)
Definition renderBlock (line : Entry -> string) (b : Block) : string :=
  "**" ++ heading b ++ "**" ++ nl
  ++ flatten (map (fun seg => line seg ++ nl) (entries b))
  ++ nl.

Definition renderBlocks (line : Entry -> string) (bs : list Block) : string :=
  flatten (map (renderBlock line) bs).

(** A run of decimal digits, and the strings made of digits only. *)
Definition digits (d : uint) : string := NilEmpty.string_of_uint d.

Definition isDigit (c : ascii) : bool :=
  let n := nat_of_ascii c in ((48 <=? n) && (n <=? 57))%nat.

Fixpoint allDigits (s : string) : bool :=
  match s with
  | EmptyString => true
  | String c rest => isDigit c && allDigits rest
  end.

(** A component of a timecode as [msToTimecode] writes it. *)
Definition component (z : Z) : string := padStart 2 "0" (toString (Some z)).

(** The milliseconds of a timecode by the 30 frames per second formula,
    in integer arithmetic. *)
Definition formulaMs (hours minutes seconds frames : Z) : Z :=
  hours * 3600000 + minutes * 60000 + seconds * 1000 + (frames * 1000) / 30.

(** Parsers that ignore the text and hand out fixed records: the library
    parsers are parameters of [mergeTranscripts], and these instantiate
    them in the examples. *)
Definition fixedWhisper (records : list WhisperSegment)
  : string -> outcome (list WhisperSegment) := fun _ => Returned records.

Definition fixedPremiere (records : list PremiereSegment)
  : string -> outcome (list PremiereSegment) := fun _ => Returned records.

(** The line writer of each variant, and the text that a state of blocks
    stands for. *)
Definition lineOf (includeTimestamps : bool) : Entry -> string :=
  if includeTimestamps then stampedLine else plainLine.

Definition textOf (includeTimestamps : bool) (st : GroupState) : MdState :=
  {| markdown := renderBlocks (lineOf includeTimestamps) (flushed st);
     currentSpeaker := groupSpeaker st;
     currentSegments := pending st |}.

(** ** The route action *)

(** The response of the action: an error with optional details, or the
    three renders and the base name of the downloads. *)
Inductive ActionData : Type :=
| ActionError (error : string) (details : option string)
| ActionSuccess (csvData markdownWithTimestamps markdownClean filename : string).

(** [!s] on a string: only the empty string is falsy. *)
Definition falsy (s : string) : bool :=
  match s with
  | EmptyString => true
  | _ => false
  end.

(** The [details] chosen in the [catch] block from the message of the
    error. *)
Definition errorDetails (message : string) : string :=
  if includes message "INVALID_OPENING_QUOTE"
  then "One of your CSV files has invalid quote formatting. Please check for mismatched quotes or try re-exporting the file."
  else if includes message "columns"
  then "The CSV files appear to have an incorrect column structure. Please ensure they match the expected format."
  else "Please ensure they are valid CSV files.".

Section Action.

(** The two library parsers, and the reading of the clock
    [new Date().toISOString()]. *)
Variable parseWhisper : string -> outcome (list WhisperSegment).
Variable parsePremiere : string -> outcome (list PremiereSegment).
Variable isoNow : string.

(** The action of the route, on the two form entries: [None] is an entry
    that [formData.get] does not find, [Some text] a file with its text. *)
Definition action (whisperFile premiereFile : option string) : ActionData :=
  match whisperFile, premiereFile with
  | Some whisperText, Some premiereText =>
      if falsy (trim whisperText) || falsy (trim premiereText) then
        ActionError "Files appear to be empty"
          (Some "Please check that your CSV files contain valid data.")
      else
        match mergeTranscripts parseWhisper parsePremiere whisperText premiereText with
        | Returned out =>
            if falsy (trim (csv out)) then
              ActionError "No valid segments were found to merge"
                (Some "Please check that your CSV files have the correct format and contain valid data.")
            else
              let baseFilename := nth 0 (split "T" isoNow) EmptyString in
              ActionSuccess (csv out) (markdownWithTimestamps out)
                (markdownClean out) baseFilename
        | Thrown message =>
            ActionError "Error processing files." (Some (errorDetails message))
        end
  | _, _ => ActionError "Both files are required" None
  end.

End Action.

(** ** Vocabulary of the further statements *)

(** The point at which [mergeTranscripts] looks the speaker up:
    [start + (end - start) / 2]. *)
Definition midpointMs (start end_ : number) : number :=
  num_add start (num_div (num_sub end_ start) (ofZ 2)).

(** A timecode with the four components written as [msToTimecode] writes
    them. *)
Definition timecodeOf (hours minutes seconds frames : Z) : string :=
  join ";" [component hours; component minutes; component seconds; component frames].

(** Grouping by adjacency, as a reference: a segment joins the last block
    when that block is headed by its speaker, and opens a block of its own
    otherwise. *)
Fixpoint addSegment (blocks : list Block) (segment : EnhancedSegment) : list Block :=
  match blocks with
  | [] => [{| heading := speaker segment; entries := [entryOf segment] |}]
  | b :: rest =>
      match rest with
      | [] =>
          if String.eqb (heading b) (speaker segment)
          then [{| heading := heading b; entries := entries b ++ [entryOf segment] |}]
          else [b; {| heading := speaker segment; entries := [entryOf segment] |}]
      | _ => b :: addSegment rest segment
      end
  end.

Definition groupAdjacent (segments : list EnhancedSegment) : list Block :=
  fold_left addSegment segments [].

(** A segment attributed to another speaker. *)
Definition withSpeaker (segment : EnhancedSegment) (who : string) : EnhancedSegment :=
  {| speaker := who; startTime := startTime segment;
     endTime := endTime segment; seg_text := seg_text segment |}.

(** The speaker of the last segment of a sequence, the empty initial
    speaker when there is none. *)
Definition lastSpeaker (segments : list EnhancedSegment) : string :=
  last (map speaker segments) EmptyString.

(** The blocks that a state of the renderer stands for: the blocks written
    and the collection under way. *)
Definition blocksOf (st : GroupState) : list Block :=
  match pending st with
  | [] => flushed st
  | _ => flushed st ++ [{| heading := groupSpeaker st; entries := pending st |}]
  end.

(** The components of a well-formed timecode: minutes and seconds below
    60, frames below 30, nothing negative; and the number of frames that
    such a timecode counts from zero. *)
Definition wellFormed (hours minutes seconds frames : Z) : bool :=
  (0 <=? hours) && (0 <=? minutes) && (minutes <? 60) &&
  (0 <=? seconds) && (seconds <? 60) && (0 <=? frames) && (frames <? 30).

Definition frameCount (hours minutes seconds frames : Z) : Z :=
  ((hours * 60 + minutes) * 60 + seconds) * 30 + frames.

(** * Properties *)

(** ** The one-segment scenario *)

(** What the merge does on the scenario as the specification writes it,
    with the marker's timecodes separated by colons: [split] finds no
    semicolon, both ends of the interval are [NaN], no comparison holds and
    the speaker is the sentinel. *)
Lemma alice_scenario_colons_actual :
  timecodeToMs (Start_Time aliceMarkerColons) = NaN /\
  timecodeToMs (End_Time aliceMarkerColons) = NaN /\
  enhanceSegments [helloSegment] [aliceMarkerColons]
  = [{| speaker := "Unknown"; startTime := ofZ 1000; endTime := ofZ 3000;
        seg_text := "hello" |}].
Proof. repeat split; vm_compute; reflexivity. Qed.

(** C1, as stated, does not hold: with the marker
    [{Speaker Name: Alice, Start Time: 00:00:00:00, End Time: 00:00:05:00}]
    the aligned segment is not attributed to Alice, the table has no row
    [Alice,00;00;01;00,00;00;03;00,hello] and the clean markdown is not
    [**Alice**], [hello] and an empty line. *)
Lemma alice_scenario_colons_refuted :
  let out := renderAll (enhanceSegments [helloSegment] [aliceMarkerColons]) in
  enhanceSegments [helloSegment] [aliceMarkerColons] <> [aliceHello] /\
  includes (csv out) aliceRowBare = false /\
  markdownClean out <> unlines ["**Alice**"; "hello"; EmptyString].
Proof.
  cbv zeta. split; [|split].
  - vm_compute. discriminate.
  - vm_compute. reflexivity.
  - vm_compute. discriminate.
Qed.

(** C1, amended: when the speech source yields exactly the segment
    [{start: 1000, end: 3000, text: hello}] and the editor source exactly
    the marker [{Speaker Name: Alice, Start Time: 00;00;00;00,
    End Time: 00;00;05;00}], timecodes written with semicolons,
    [mergeTranscripts] returns; the aligned segment has speaker Alice,
    start 1000, end 3000 and text hello; and the table render is the
    header record followed by the record
    ["Alice","00;00;01;00","00;00;03;00","hello"], every field quoted. *)
Theorem mergeTranscripts_alice_scenario :
  forall (parseWhisper : string -> outcome (list WhisperSegment))
         (parsePremiere : string -> outcome (list PremiereSegment))
         (whisperCsv premiereCsv : string),
    parseWhisper whisperCsv = Returned [helloSegment] ->
    parsePremiere premiereCsv = Returned [aliceMarker] ->
    enhanceSegments [helloSegment] [aliceMarker] = [aliceHello] /\
    exists out,
      mergeTranscripts parseWhisper parsePremiere whisperCsv premiereCsv
      = Returned out /\
      csv out = stringifyRecord columns ++ aliceRowQuoted ++ nl /\
      includes (csv out) aliceRowQuoted = true.
Proof.
  intros parseWhisper parsePremiere whisperCsv premiereCsv Hw Hp.
  split; [vm_compute; reflexivity|].
  unfold mergeTranscripts. rewrite Hw, Hp.
  eexists. split; [reflexivity|].
  split; vm_compute; reflexivity.
Qed.

Lemma mergeTranscripts_alice_scenario_witness :
  fixedWhisper [helloSegment] "start,end,text" = Returned [helloSegment] /\
  fixedPremiere [aliceMarker] "Speaker Name,Start Time,End Time,Text"
  = Returned [aliceMarker] /\
  enhanceSegments [helloSegment] [aliceMarker] = [aliceHello] /\
  exists out,
    mergeTranscripts (fixedWhisper [helloSegment]) (fixedPremiere [aliceMarker])
      "start,end,text" "Speaker Name,Start Time,End Time,Text"
    = Returned out /\
    csv out = stringifyRecord columns ++ aliceRowQuoted ++ nl /\
    includes (csv out) aliceRowQuoted = true.
Proof.
  split; [reflexivity|]. split; [reflexivity|].
  apply (mergeTranscripts_alice_scenario
           (fixedWhisper [helloSegment]) (fixedPremiere [aliceMarker])
           "start,end,text" "Speaker Name,Start Time,End Time,Text");
    reflexivity.
Defined.

(** ** The empty sequence *)

(** C5, on the code: for zero segments the two grouped texts are empty,
    and the table is the header record, which [header: true] writes
    whether or not there is data: it is not the empty string, and it is not
    blank either. *)
Theorem renderAll_empty :
  markdownWithTimestamps (renderAll []) = EmptyString /\
  markdownClean (renderAll []) = EmptyString /\
  csv (renderAll []) = stringifyRecord columns /\
  csv (renderAll []) <> EmptyString /\
  trim (csv (renderAll [])) <> EmptyString.
Proof.
  split; [reflexivity|]. split; [reflexivity|]. split; [reflexivity|].
  split; vm_compute; discriminate.
Qed.

(** ** Speaker resolution *)

(** [intervalContains] is the closed interval: both ends are numbers, and
    so is [m], with [startMs <= m <= endMs]. *)
Lemma intervalContains_spec (m : number) (marker : PremiereSegment) :
  intervalContains m marker = true <->
  exists s x e,
    timecodeToMs (Start_Time marker) = Num s /\ m = Num x /\
    timecodeToMs (End_Time marker) = Num e /\ (s <= x)%Q /\ (x <= e)%Q.
Proof.
  unfold intervalContains, num_le. split.
  - destruct (timecodeToMs (Start_Time marker)) as [s|]; [|discriminate].
    destruct m as [x|]; [|discriminate].
    destruct (timecodeToMs (End_Time marker)) as [e|];
      [|rewrite andb_false_r; discriminate].
    intros H. apply andb_true_iff in H. destruct H as [H1 H2].
    exists s, x, e. repeat split; try reflexivity; now apply Qle_bool_iff.
  - intros (s & x & e & -> & -> & -> & H1 & H2).
    apply andb_true_iff. split; now apply Qle_bool_iff.
Qed.

(** The test of the loop is the containment test. *)
Lemma loop_test_is_containment (m : number) (marker : PremiereSegment) :
  num_ge m (timecodeToMs (Start_Time marker)) &&
  num_le m (timecodeToMs (End_Time marker))
  = intervalContains m marker.
Proof.
  unfold intervalContains, num_ge, num_le.
  destruct m, (timecodeToMs (Start_Time marker)); reflexivity.
Qed.

Lemma findSpeakerAtTime_resolveSpeaker (m : number) (markers : list PremiereSegment) :
  findSpeakerAtTime m markers = resolveSpeaker m markers.
Proof.
  unfold resolveSpeaker.
  induction markers as [|marker rest IH]; simpl; [reflexivity|].
  rewrite loop_test_is_containment.
  destruct (intervalContains m marker); [reflexivity|exact IH].
Qed.

Lemma find_none_iff {A : Type} (p : A -> bool) (l : list A) :
  find p l = None <-> forall x, In x l -> p x = false.
Proof.
  split.
  - intros H x Hx. exact (find_none p l H x Hx).
  - induction l as [|a l IH]; simpl; intros H; [reflexivity|].
    rewrite (H a (or_introl eq_refl)). apply IH.
    intros x Hx. apply H. now right.
Qed.

Lemma find_first {A : Type} (p : A -> bool) (before : list A) (a : A) (after : list A) :
  (forall x, In x before -> p x = false) -> p a = true ->
  find p (before ++ a :: after) = Some a.
Proof.
  induction before as [|b before IH]; simpl; intros Hb Ha.
  - now rewrite Ha.
  - rewrite (Hb b (or_introl eq_refl)). apply IH; [|exact Ha].
    intros x Hx. apply Hb. now right.
Qed.

Lemma find_some_first {A : Type} (p : A -> bool) (l : list A) (a : A) :
  find p l = Some a ->
  exists before after,
    l = (before ++ a :: after)%list /\
    (forall x, In x before -> p x = false) /\ p a = true.
Proof.
  induction l as [|b l IH]; simpl; [discriminate|].
  destruct (p b) eqn:Hb.
  - intros [= <-]. exists [], l. repeat split; [intros x []|exact Hb].
  - intros H. destruct (IH H) as (before & after & -> & Hbefore & Ha).
    exists (b :: before), after. repeat split; [|exact Ha].
    intros x [<-|Hx]; [exact Hb|now apply Hbefore].
Qed.

(** C4, as stated, does not hold in one direction: the result is the
    sentinel although a marker's interval contains the midpoint, when that
    marker is itself labelled [Unknown]. *)
Lemma findSpeakerAtTime_sentinel_not_exact :
  ~ (findSpeakerAtTime (ofZ 2000) [unknownMarker] = "Unknown" <->
     forall marker, In marker [unknownMarker] ->
                    intervalContains (ofZ 2000) marker = false).
Proof.
  intros [H _].
  specialize (H eq_refl unknownMarker (or_introl eq_refl)).
  vm_compute in H. discriminate H.
Qed.

(** C4, amended: for every midpoint [m] and every marker list, speaker
    resolution scans the markers in order and returns the label of the
    first marker whose interval [[startMs, endMs]] contains [m], both ends
    included, so that [m] equal to the [startMs] or the [endMs] of a marker
    with [startMs <= endMs] is inside its interval; it returns ["Unknown"]
    whenever no marker's interval contains [m], the empty list included;
    and when it returns ["Unknown"], either no interval contains [m] or
    the first marker containing [m] is itself labelled ["Unknown"]. *)
Theorem findSpeakerAtTime_first_match :
  forall (m : number) (markers : list PremiereSegment),
    findSpeakerAtTime m markers = resolveSpeaker m markers /\
    (forall before marker after,
        markers = (before ++ marker :: after)%list ->
        (forall x, In x before -> intervalContains m x = false) ->
        intervalContains m marker = true ->
        findSpeakerAtTime m markers = Speaker_Name marker) /\
    ((forall x, In x markers -> intervalContains m x = false) ->
     findSpeakerAtTime m markers = "Unknown") /\
    findSpeakerAtTime m [] = "Unknown" /\
    (findSpeakerAtTime m markers = "Unknown" ->
     (forall x, In x markers -> intervalContains m x = false) \/
     exists before marker after,
       markers = (before ++ marker :: after)%list /\
       (forall x, In x before -> intervalContains m x = false) /\
       intervalContains m marker = true /\
       Speaker_Name marker = "Unknown") /\
    (forall marker s e,
        timecodeToMs (Start_Time marker) = Num s ->
        timecodeToMs (End_Time marker) = Num e ->
        (s <= e)%Q ->
        intervalContains (Num s) marker = true /\
        intervalContains (Num e) marker = true).
Proof.
  intros m markers.
  split; [apply findSpeakerAtTime_resolveSpeaker|].
  split.
  { intros before marker after -> Hbefore Hin.
    rewrite findSpeakerAtTime_resolveSpeaker. unfold resolveSpeaker.
    now rewrite (find_first _ before marker after Hbefore Hin). }
  split.
  { intros Hnone. rewrite findSpeakerAtTime_resolveSpeaker. unfold resolveSpeaker.
    now rewrite (proj2 (find_none_iff _ markers) Hnone). }
  split; [reflexivity|].
  split.
  { rewrite findSpeakerAtTime_resolveSpeaker. unfold resolveSpeaker.
    destruct (find (intervalContains m) markers) as [marker|] eqn:Hfind.
    - intros Hname. right.
      destruct (find_some_first _ _ _ Hfind) as (before & after & Heq & Hb & Hm).
      exists before, marker, after. repeat split; assumption.
    - intros _. left. now apply find_none_iff. }
  intros marker s e Hs He Hle.
  split; apply intervalContains_spec.
  - exists s, s, e. repeat split; try assumption. apply Qle_refl.
  - exists s, e, e. repeat split; try assumption. apply Qle_refl.
Qed.

Lemma findSpeakerAtTime_first_match_witness :
  let bob := {| Speaker_Name := "Bob"; Start_Time := "00;00;10;00";
                End_Time := "00;00;20;00"; Text := EmptyString |} in
  let carol := {| Speaker_Name := "Carol"; Start_Time := "00;00;00;00";
                  End_Time := "00;00;05;00"; Text := EmptyString |} in
  findSpeakerAtTime (ofZ 5000) [bob; aliceMarker; carol] = "Alice" /\
  findSpeakerAtTime (ofZ 7000) [bob; aliceMarker; carol] = "Unknown".
Proof.
  cbv zeta. split.
  - apply (proj1 (proj2 (findSpeakerAtTime_first_match (ofZ 5000) _))
             [_] aliceMarker [_] eq_refl).
    + intros x [<-|[]]. vm_compute. reflexivity.
    + vm_compute. reflexivity.
  - apply (proj1 (proj2 (proj2 (findSpeakerAtTime_first_match (ofZ 7000) _)))).
    intros x [<-|[<-|[<-|[]]]]; vm_compute; reflexivity.
Defined.

(** ** Strings put end to end *)

Lemma append_empty_r (s : string) : s ++ EmptyString = s.
Proof. induction s as [|c s IH]; simpl; [reflexivity|now rewrite IH]. Qed.

Lemma append_assoc (a b c : string) : (a ++ b) ++ c = a ++ (b ++ c).
Proof. induction a as [|x a IH]; simpl; [reflexivity|now rewrite IH]. Qed.

Lemma length_append (a b : string) :
  String.length (a ++ b) = (String.length a + String.length b)%nat.
Proof. induction a as [|x a IH]; simpl; [reflexivity|now rewrite IH]. Qed.

Lemma flatten_app (l1 l2 : list string) :
  flatten (l1 ++ l2) = flatten l1 ++ flatten l2.
Proof.
  induction l1 as [|x l1 IH]; simpl; [reflexivity|].
  now rewrite IH, append_assoc.
Qed.

(** ** The two grouped texts share their blocks *)

Lemma renderEntry_lineOf (includeTimestamps : bool) (seg : Entry) :
  renderEntry includeTimestamps seg = lineOf includeTimestamps seg ++ nl.
Proof.
  destruct includeTimestamps; unfold renderEntry, lineOf, stampedLine, plainLine;
    simpl; [|reflexivity].
  repeat (rewrite ?append_assoc; simpl). reflexivity.
Qed.

Lemma renderEntries_flatten (includeTimestamps : bool) (segs : list Entry) (md : string) :
  renderEntries includeTimestamps segs md
  = md ++ flatten (map (fun seg => lineOf includeTimestamps seg ++ nl) segs).
Proof.
  unfold renderEntries. revert md.
  induction segs as [|seg segs IH]; intros md; simpl.
  - now rewrite append_empty_r.
  - rewrite IH, renderEntry_lineOf, append_assoc. reflexivity.
Qed.

Lemma renderBlocks_snoc (line : Entry -> string) (bs : list Block) (b : Block) :
  renderBlocks line (bs ++ [b]) = renderBlocks line bs ++ renderBlock line b.
Proof.
  unfold renderBlocks. rewrite map_app, flatten_app. simpl.
  now rewrite append_empty_r.
Qed.

(** One step of the renderer on the text of a block state is the text of
    one step on the blocks. *)
Lemma visit_collect (includeTimestamps : bool) (len : nat) (st : GroupState)
    (segment : EnhancedSegment) (index : nat) :
  visit includeTimestamps len (textOf includeTimestamps st) segment index
  = textOf includeTimestamps (collect len st segment index).
Proof.
  unfold visit, collect, textOf; simpl.
  destruct (negb (speaker segment =? groupSpeaker st)%string
            || (Z.of_nat index =? Z.of_nat len - 1)); simpl; [|reflexivity].
  f_equal.
  destruct (0 <? Z.of_nat (List.length
              (if Z.of_nat index =? Z.of_nat len - 1
               then (pending st ++ [entryOf segment])%list else pending st)));
    [|reflexivity].
  rewrite renderBlocks_snoc, renderEntries_flatten.
  unfold renderBlock; simpl.
  repeat (rewrite ?append_assoc; simpl). reflexivity.
Qed.

Lemma forEachFrom_collect (includeTimestamps : bool) (len : nat)
    (segments : list EnhancedSegment) :
  forall (index : nat) (st : GroupState),
    forEachFrom (visit includeTimestamps len) segments index (textOf includeTimestamps st)
    = textOf includeTimestamps (forEachFrom (collect len) segments index st).
Proof.
  induction segments as [|segment rest IH]; intros index st; simpl; [reflexivity|].
  rewrite visit_collect. apply IH.
Qed.

Lemma generateMarkdown_blocks (segments : list EnhancedSegment) (includeTimestamps : bool) :
  generateMarkdown segments includeTimestamps
  = renderBlocks (lineOf includeTimestamps) (groupBlocks segments).
Proof.
  unfold generateMarkdown, groupBlocks.
  change initialState
    with (textOf includeTimestamps
            {| flushed := []; groupSpeaker := EmptyString; pending := [] |}).
  now rewrite forEachFrom_collect.
Qed.

(** ** The end of the sequence in the grouped-text renderer *)

Lemma forEachFrom_app {A St : Type} (f : St -> A -> nat -> St) (l1 l2 : list A) :
  forall (index : nat) (st : St),
    forEachFrom f (l1 ++ l2) index st
    = forEachFrom f l2 (index + List.length l1) (forEachFrom f l1 index st).
Proof.
  induction l1 as [|x l1 IH]; intros index st; simpl.
  - now rewrite Nat.add_0_r.
  - rewrite IH. f_equal. lia.
Qed.

(** Before the last position, a step leaves the visited segment's speaker
    as the current one. *)
Lemma collect_not_last (len : nat) (st : GroupState) (segment : EnhancedSegment)
    (index : nat) :
  Z.of_nat index <> Z.of_nat len - 1 ->
  groupSpeaker (collect len st segment index) = speaker segment.
Proof.
  intros Hidx. unfold collect.
  apply Z.eqb_neq in Hidx. rewrite Hidx, orb_false_r.
  destruct (String.eqb_spec (speaker segment) (groupSpeaker st)) as [E|E]; simpl;
    [now rewrite E|reflexivity].
Qed.

(** At the last position the segment joins the collection, which is
    written under the speaker current before it. *)
Lemma collect_last (len : nat) (st : GroupState) (segment : EnhancedSegment)
    (index : nat) :
  Z.of_nat index = Z.of_nat len - 1 ->
  flushed (collect len st segment index)
  = (flushed st ++ [{| heading := groupSpeaker st;
                       entries := pending st ++ [entryOf segment] |}])%list.
Proof.
  intros Hidx. unfold collect.
  apply Z.eqb_eq in Hidx. rewrite Hidx, orb_true_r. simpl.
  rewrite length_app, Nat.add_comm. reflexivity.
Qed.

(** The last block is headed by the speaker of the segment before the
    last, and ends with the last segment. *)
Lemma groupBlocks_last_under_previous (front : list EnhancedSegment)
    (prev last : EnhancedSegment) :
  exists (blocks : list Block) (es : list Entry),
    groupBlocks (front ++ [prev; last])
    = (blocks ++ [{| heading := speaker prev;
                     entries := es ++ [entryOf last] |}])%list.
Proof.
  unfold groupBlocks. rewrite forEachFrom_app. simpl.
  set (len := List.length (front ++ [prev; last])).
  assert (Hlen : len = (List.length front + 2)%nat)
    by (subst len; rewrite length_app; reflexivity).
  set (st := forEachFrom (collect len) front 0%nat _).
  set (st' := collect len st prev (List.length front)).
  exists (flushed st'), (pending st').
  rewrite collect_last by lia.
  subst st'. rewrite collect_not_last by lia. reflexivity.
Qed.

(** A lone segment is written under the empty initial speaker. *)
Lemma groupBlocks_single (only : EnhancedSegment) :
  groupBlocks [only] = [{| heading := EmptyString; entries := [entryOf only] |}].
Proof.
  unfold groupBlocks. simpl. unfold collect. simpl.
  now rewrite orb_true_r.
Qed.

(** Three segments, the first two of different speakers: two blocks. *)
Lemma groupBlocks_three (s1 s2 s3 : EnhancedSegment) :
  speaker s1 <> speaker s2 ->
  groupBlocks [s1; s2; s3]
  = [{| heading := speaker s1; entries := [entryOf s1] |};
     {| heading := speaker s2; entries := [entryOf s2; entryOf s3] |}].
Proof.
  intros Hne. unfold groupBlocks. simpl. unfold collect at 3. simpl.
  destruct (String.eqb_spec (speaker s1) EmptyString) as [E1|E1]; simpl.
  - unfold collect at 2. simpl.
    destruct (String.eqb_spec (speaker s2) EmptyString) as [E2|E2]; simpl;
      [congruence|].
    unfold collect. simpl. rewrite orb_true_r. simpl. now rewrite E1.
  - unfold collect at 2. simpl.
    destruct (String.eqb_spec (speaker s2) (speaker s1)) as [E2|E2]; simpl;
      [congruence|].
    unfold collect. simpl. rewrite orb_true_r. reflexivity.
Qed.

(** C2, on the code: in every sequence of two segments or more whose last
    segment's speaker differs from the speaker of the segment before, the
    final block lists the last segment but is headed by the previous
    segment's speaker, not by the last segment's own.  The last segment is
    pushed on the collection before the previous speaker's block is
    written, and nothing is written after [currentSpeaker] is updated. *)
Theorem generateMarkdown_last_speaker_change :
  forall (front : list EnhancedSegment) (prev last : EnhancedSegment),
    speaker last <> speaker prev ->
    exists (blocks : list Block) (es : list Entry),
      let final := {| heading := speaker prev; entries := es ++ [entryOf last] |} in
      groupBlocks (front ++ [prev; last]) = (blocks ++ [final])%list /\
      heading final <> speaker last /\
      forall includeTimestamps : bool,
        generateMarkdown (front ++ [prev; last]) includeTimestamps
        = renderBlocks (lineOf includeTimestamps) blocks
          ++ renderBlock (lineOf includeTimestamps) final.
Proof.
  intros front prev last Hne.
  destruct (groupBlocks_last_under_previous front prev last) as (blocks & es & H).
  exists blocks, es. cbv zeta. split; [exact H|].
  split; [simpl; congruence|].
  intros includeTimestamps.
  now rewrite generateMarkdown_blocks, H, renderBlocks_snoc.
Qed.

Lemma generateMarkdown_last_speaker_change_witness :
  speaker (said "B" "b") <> speaker (said "A" "a") /\
  (exists (blocks : list Block) (es : list Entry),
      let final :=
        {| heading := speaker (said "A" "a");
           entries := es ++ [entryOf (said "B" "b")] |} in
      groupBlocks ([] ++ [said "A" "a"; said "B" "b"]) = (blocks ++ [final])%list /\
      heading final <> speaker (said "B" "b") /\
      forall includeTimestamps : bool,
        generateMarkdown ([] ++ [said "A" "a"; said "B" "b"]) includeTimestamps
        = renderBlocks (lineOf includeTimestamps) blocks
          ++ renderBlock (lineOf includeTimestamps) final) /\
  generateMarkdown [said "A" "a"; said "B" "b"] false
  = unlines ["**A**"; "a"; "b"; EmptyString] /\
  generateMarkdown [said "A" "a"; said "B" "b"] true
  = unlines ["**A**"; "[00;00;00;00 - 00;00;01;15] a";
             "[00;00;00;00 - 00;00;01;15] b"; EmptyString] /\
  includes (generateMarkdown [said "A" "a"; said "B" "b"] false) "**B**" = false.
Proof.
  split; [simpl; discriminate|].
  split.
  - apply (generateMarkdown_last_speaker_change [] (said "A" "a") (said "B" "b")).
    simpl; discriminate.
  - repeat split; vm_compute; reflexivity.
Defined.

(** C3, on the code: for every three segments whose speakers are
    [A, B, A] with [A <> B], both variants render two blocks, not three:
    the block of [A] with the first segment, and the block of [B] with the
    second and the third segment. *)
Theorem generateMarkdown_A_B_A :
  forall s1 s2 s3 : EnhancedSegment,
    speaker s3 = speaker s1 ->
    speaker s1 <> speaker s2 ->
    let blocks :=
      [{| heading := speaker s1; entries := [entryOf s1] |};
       {| heading := speaker s2; entries := [entryOf s2; entryOf s3] |}] in
    groupBlocks [s1; s2; s3] = blocks /\
    generateMarkdown [s1; s2; s3] true = renderBlocks stampedLine blocks /\
    generateMarkdown [s1; s2; s3] false = renderBlocks plainLine blocks.
Proof.
  intros s1 s2 s3 _ Hne. cbv zeta.
  pose proof (groupBlocks_three s1 s2 s3 Hne) as H.
  split; [exact H|].
  split; rewrite generateMarkdown_blocks, H; reflexivity.
Qed.

Lemma generateMarkdown_A_B_A_witness :
  let segments := [said "A" "x"; said "B" "y"; said "A" "z"] in
  let blocks :=
    [{| heading := "A"; entries := [entryOf (said "A" "x")] |};
     {| heading := "B"; entries := [entryOf (said "B" "y"); entryOf (said "A" "z")] |}] in
  (speaker (said "A" "z") = speaker (said "A" "x") /\
   speaker (said "A" "x") <> speaker (said "B" "y")) /\
  (groupBlocks segments = blocks /\
   generateMarkdown segments true = renderBlocks stampedLine blocks /\
   generateMarkdown segments false = renderBlocks plainLine blocks) /\
  generateMarkdown segments false
  = unlines ["**A**"; "x"; EmptyString; "**B**"; "y"; "z"; EmptyString] /\
  generateMarkdown segments true
  = unlines ["**A**"; "[00;00;00;00 - 00;00;01;15] x"; EmptyString;
             "**B**"; "[00;00;00;00 - 00;00;01;15] y";
             "[00;00;00;00 - 00;00;01;15] z"; EmptyString].
Proof.
  cbv zeta. split; [split; [reflexivity|simpl; discriminate]|].
  split.
  - apply (generateMarkdown_A_B_A (said "A" "x") (said "B" "y") (said "A" "z"));
      [reflexivity|simpl; discriminate].
  - split; vm_compute; reflexivity.
Defined.

(** ** Arithmetic of the numbers *)

Lemma Qred_inject_Z (z : Z) : Qred (inject_Z z) = inject_Z z.
Proof.
  unfold inject_Z, Qred.
  generalize (Z.ggcd_gcd z 1) (Z.ggcd_correct_divisors z 1).
  destruct (Z.ggcd z 1) as [g [a b]]; simpl.
  intros Hg [Ha Hb].
  rewrite Z.gcd_1_r in Hg. subst g.
  rewrite Z.mul_1_l in Ha, Hb. subst a b. reflexivity.
Qed.

Lemma num_integer (q : Q) (z : Z) : (q == inject_Z z)%Q -> num q = ofZ z.
Proof.
  intros H. unfold num, ofZ.
  now rewrite (Qred_complete _ _ H), Qred_inject_Z.
Qed.

Lemma num_add_ofZ (a b : Z) : num_add (ofZ a) (ofZ b) = ofZ (a + b).
Proof. apply num_integer. now rewrite inject_Z_plus. Qed.

Lemma num_mul_ofZ (a b : Z) : num_mul (ofZ a) (ofZ b) = ofZ (a * b).
Proof. apply num_integer. now rewrite inject_Z_mult. Qed.

Lemma Qeq_bool_inject_Z_0 (c : Z) : c <> 0 -> Qeq_bool (inject_Z c) 0 = false.
Proof.
  intros Hc. destruct (Qeq_bool (inject_Z c) 0) eqn:E; [|reflexivity].
  apply Qeq_bool_iff in E. unfold Qeq in E. simpl in E. lia.
Qed.

Lemma Qfloor_Qred (q : Q) : Qfloor (Qred q) = Qfloor q.
Proof. apply Qfloor_comp, Qred_correct. Qed.

Lemma floor_div (q : Q) (c : Z) :
  c <> 0 ->
  Math_floor (num_div (Num q) (ofZ c)) = Some (Qfloor (q / inject_Z c)).
Proof.
  intros Hc. unfold num_div, ofZ. rewrite (Qeq_bool_inject_Z_0 c Hc).
  unfold Math_floor, num. f_equal. apply Qfloor_Qred.
Qed.

Lemma Qtrunc_nonneg (x : Q) : (0 <= x)%Q -> Qtrunc x = Qfloor x.
Proof.
  destruct x as [n d]. unfold Qle, Qtrunc, Qfloor; simpl. intros H.
  apply Z.quot_div_nonneg; lia.
Qed.

Lemma rem_nonneg (q : Q) (c : Z) :
  (0 <= q)%Q -> 0 < c ->
  exists r : Q,
    num_rem (Num q) (ofZ c) = Num r /\
    (r == q - inject_Z c * inject_Z (Qfloor (q / inject_Z c)))%Q /\
    (0 <= r)%Q /\ (r < inject_Z c)%Q.
Proof.
  intros Hq Hc.
  assert (Hc' : (0 < inject_Z c)%Q) by (change (inject_Z 0 < inject_Z c)%Q; now rewrite <- Zlt_Qlt).
  assert (Hx : (0 <= q / inject_Z c)%Q).
  { apply Qle_shift_div_l; [exact Hc'|]. now rewrite Qmult_0_l. }
  unfold num_rem, ofZ. rewrite (Qeq_bool_inject_Z_0 c) by lia.
  rewrite (Qtrunc_nonneg _ Hx).
  eexists. split; [reflexivity|].
  split; [apply Qred_correct|].
  rewrite !Qred_correct.
  pose proof (Qfloor_le (q / inject_Z c)) as Hlo.
  pose proof (Qlt_floor (q / inject_Z c)) as Hhi.
  rewrite inject_Z_plus in Hhi.
  set (k := inject_Z (Qfloor (q / inject_Z c))) in *.
  assert (Hq' : (q == (q / inject_Z c) * inject_Z c)%Q).
  { field. intros E. rewrite E in Hc'. now apply Qlt_irrefl in Hc'. }
  split.
  - assert ((k * inject_Z c <= q / inject_Z c * inject_Z c)%Q)
      by (apply Qmult_le_compat_r; [exact Hlo|now apply Qlt_le_weak]).
    rewrite <- Hq' in H. lra.
  - assert ((q / inject_Z c * inject_Z c < (k + inject_Z 1) * inject_Z c)%Q)
      by (apply Qmult_lt_compat_r; [exact Hc'|exact Hhi]).
    rewrite <- Hq' in H. change (inject_Z 1) with 1%Q in H. lra.
Qed.

Lemma floor_range (x : Q) (k : Z) :
  (0 <= x)%Q -> (x < inject_Z k)%Q -> 0 <= Qfloor x < k.
Proof.
  intros H0 Hk. split.
  - change 0 with (Qfloor (inject_Z 0)). now apply Qfloor_resp_le.
  - rewrite Zlt_Qlt. eapply Qle_lt_trans; [apply Qfloor_le|exact Hk].
Qed.

Lemma floor_div_ofZ (z c : Z) :
  c <> 0 -> Math_floor (num_div (ofZ z) (ofZ c)) = Some (z / c).
Proof.
  intros Hc. unfold ofZ at 1. rewrite (floor_div _ c Hc).
  now rewrite <- Zdiv_Qdiv.
Qed.

Lemma num_rem_ofZ (z c : Z) :
  0 <= z -> 0 < c -> num_rem (ofZ z) (ofZ c) = ofZ (z mod c).
Proof.
  intros Hz Hc.
  assert (Hx : (0 <= inject_Z z / inject_Z c)%Q).
  { apply Qle_shift_div_l.
    - change (inject_Z 0 < inject_Z c)%Q. now rewrite <- Zlt_Qlt.
    - rewrite Qmult_0_l. change (inject_Z 0 <= inject_Z z)%Q. now rewrite <- Zle_Qle. }
  unfold num_rem, ofZ. rewrite (Qeq_bool_inject_Z_0 c) by lia.
  rewrite (Qtrunc_nonneg _ Hx), <- Zdiv_Qdiv.
  apply num_integer.
  rewrite Z.mod_eq by lia.
  unfold Qminus. rewrite <- inject_Z_mult, <- inject_Z_opp, <- inject_Z_plus.
  reflexivity.
Qed.

(** The timecode of a whole number of milliseconds. *)
Lemma msToTimecode_ofZ (z : Z) :
  0 <= z ->
  msToTimecode (ofZ z)
  = component (z / 3600000) ++ ";" ++
    component (z mod 3600000 / 60000) ++ ";" ++
    component (z mod 60000 / 1000) ++ ";" ++
    component (z mod 1000 * 30 / 1000).
Proof.
  intros Hz. unfold msToTimecode, component.
  rewrite !num_rem_ofZ by lia.
  rewrite num_mul_ofZ.
  rewrite !floor_div_ofZ by lia.
  reflexivity.
Qed.

Lemma msToTimecode_components (q : Q) :
  (0 <= q)%Q ->
  exists h mi s f : Z,
    msToTimecode (Num q)
    = component h ++ ";" ++ component mi ++ ";" ++ component s ++ ";" ++ component f /\
    0 <= h /\ 0 <= mi <= 59 /\ 0 <= s <= 59 /\ 0 <= f <= 29.
Proof.
  intros Hq. unfold msToTimecode, component.
  destruct (rem_nonneg q 3600000 Hq ltac:(lia)) as (r1 & -> & _ & Hr1 & Hr1').
  destruct (rem_nonneg q 60000 Hq ltac:(lia)) as (r2 & -> & _ & Hr2 & Hr2').
  destruct (rem_nonneg q 1000 Hq ltac:(lia)) as (r3 & -> & _ & Hr3 & Hr3').
  change (num_mul (Num r3) (ofZ 30)) with (Num (Qred (r3 * inject_Z 30))).
  rewrite !floor_div by lia.
  do 4 eexists. split; [reflexivity|].
  split.
  { apply (floor_range (q / inject_Z 3600000) (Qfloor (q / inject_Z 3600000) + 1)).
    - apply Qle_shift_div_l; [reflexivity|now rewrite Qmult_0_l].
    - apply Qlt_floor. }
  split.
  { assert (0 <= Qfloor (r1 / inject_Z 60000) < 60); [|lia].
    apply floor_range.
    - apply Qle_shift_div_l; [reflexivity|now rewrite Qmult_0_l].
    - apply Qlt_shift_div_r; [reflexivity|]. exact Hr1'. }
  split.
  { assert (0 <= Qfloor (r2 / inject_Z 1000) < 60); [|lia].
    apply floor_range.
    - apply Qle_shift_div_l; [reflexivity|now rewrite Qmult_0_l].
    - apply Qlt_shift_div_r; [reflexivity|]. exact Hr2'. }
  assert (0 <= Qfloor (Qred (r3 * inject_Z 30) / inject_Z 1000) < 30); [|lia].
  apply floor_range.
  - apply Qle_shift_div_l; [reflexivity|]. rewrite Qmult_0_l, Qred_correct.
    apply Qmult_le_0_compat; [exact Hr3|discriminate].
  - apply Qlt_shift_div_r; [reflexivity|]. rewrite Qred_correct.
    change (inject_Z 30 * inject_Z 1000)%Q with (inject_Z 1000 * inject_Z 30)%Q.
    apply Qmult_lt_compat_r; [reflexivity|exact Hr3'].
Qed.

(** ** Digits, components and the two conversions *)

Lemma allDigits_digits (d : uint) : allDigits (digits d) = true.
Proof. induction d; simpl; auto. Qed.

Lemma isDigit_not_special (c : ascii) :
  isDigit c = true ->
  isWhiteSpace c = false /\ Ascii.eqb c ";" = false /\
  Ascii.eqb c "-" = false /\ Ascii.eqb c "+" = false.
Proof.
  destruct c as [[|] [|] [|] [|] [|] [|] [|] [|]]; vm_compute;
    intros H; try discriminate H; repeat split.
Qed.

Lemma trim_allDigits (s : string) : allDigits s = true -> trim s = s.
Proof.
  intros H. unfold trim.
  assert (Hstart : trimStart s = s).
  { destruct s as [|c s]; [reflexivity|]. simpl in *.
    apply andb_true_iff in H. destruct H as [Hc _].
    now rewrite (proj1 (isDigit_not_special c Hc)). }
  rewrite Hstart. clear Hstart.
  induction s as [|c s IH]; [reflexivity|].
  simpl in *. apply andb_true_iff in H. destruct H as [Hc Hs].
  rewrite (IH Hs). destruct s; [|reflexivity].
  now rewrite (proj1 (isDigit_not_special c Hc)).
Qed.

Lemma Number_digits (d : uint) : Number (digits d) = ofZ (Z.of_uint d).
Proof.
  unfold Number. rewrite (trim_allDigits _ (allDigits_digits d)).
  pose proof (NilEmpty.usu d) as Husu.
  pose proof (allDigits_digits d) as Hd.
  unfold digits in *.
  destruct (NilEmpty.string_of_uint d) as [|c rest] eqn:E.
  - destruct d; try discriminate E. reflexivity.
  - simpl in Hd. apply andb_true_iff in Hd. destruct Hd as [Hc _].
    destruct (isDigit_not_special c Hc) as (_ & _ & -> & ->).
    unfold digitsValue, NilZero.uint_of_string. now rewrite Husu.
Qed.

Lemma split_digits (a rest : string) :
  allDigits a = true ->
  split ";" (a ++ String ";" rest) = a :: split ";" rest.
Proof.
  induction a as [|c a IH]; intros H; simpl in *; [reflexivity|].
  apply andb_true_iff in H. destruct H as [Hc Ha].
  destruct (isDigit_not_special c Hc) as (_ & -> & _).
  now rewrite (IH Ha).
Qed.

Lemma split_digits_last (a : string) :
  allDigits a = true -> split ";" a = [a].
Proof.
  induction a as [|c a IH]; intros H; simpl in *; [reflexivity|].
  apply andb_true_iff in H. destruct H as [Hc Ha].
  destruct (isDigit_not_special c Hc) as (_ & -> & _).
  now rewrite (IH Ha).
Qed.

Lemma split_four (a b c d : string) :
  allDigits a = true -> allDigits b = true ->
  allDigits c = true -> allDigits d = true ->
  split ";" (a ++ ";" ++ b ++ ";" ++ c ++ ";" ++ d) = [a; b; c; d].
Proof.
  intros Ha Hb Hc Hd. simpl.
  rewrite (split_digits a _ Ha), (split_digits b _ Hb), (split_digits c _ Hc).
  now rewrite (split_digits_last d Hd).
Qed.

Lemma frames_floor (F : Z) :
  Math_floor (num_mul (ofZ F) (num_div (ofZ 1000) (ofZ 30))) = Some (F * 1000 / 30).
Proof.
  change (num_div (ofZ 1000) (ofZ 30)) with (Num (100 # 3)).
  unfold num_mul, ofZ, num, Math_floor. rewrite Qfloor_Qred.
  f_equal. unfold Qfloor, Qmult, inject_Z; simpl.
  replace (F * 1000) with (F * 100 * 10) by lia.
  change 30 with (3 * 10).
  now rewrite Z.div_mul_cancel_r by lia.
Qed.

(** The formula on numeric components. *)
Lemma timecodeToMs_parts (a b c d : string) (H M S F : Z) :
  allDigits a = true -> allDigits b = true ->
  allDigits c = true -> allDigits d = true ->
  Number a = ofZ H -> Number b = ofZ M -> Number c = ofZ S -> Number d = ofZ F ->
  timecodeToMs (a ++ ";" ++ b ++ ";" ++ c ++ ";" ++ d) = ofZ (formulaMs H M S F).
Proof.
  intros Ha Hb Hc Hd NH NM NS NF.
  unfold timecodeToMs. rewrite (split_four a b c d Ha Hb Hc Hd).
  cbn [map nth]. rewrite NH, NM, NS, NF.
  rewrite frames_floor. cbn [ofInt].
  now rewrite !num_mul_ofZ, !num_add_ofZ.
Qed.

(** C7, as stated, does not hold: a timecode written [HH:MM:SS:FF], with
    colons, has no semicolon to split at and converts to [NaN], not to the
    milliseconds of the formula. *)
Lemma timecodeToMs_colons_refuted :
  timecodeToMs "00:00:05:00" = NaN /\
  timecodeToMs "00:00:05:00" <> ofZ (formulaMs 0 0 5 0).
Proof. split; [vm_compute; reflexivity|vm_compute; discriminate]. Qed.

(** C7, amended: for every timecode made of four runs of decimal digits
    separated by semicolons, [HH;MM;SS;FF], with components hours,
    minutes, seconds and frames, the frames below 2^32 and the
    milliseconds of the formula not above [MAX_SAFE_INTEGER],
    [timecodeToMs] is the number
    [hours*3600000 + minutes*60000 + seconds*1000 + floor(frames*1000/30)],
    in exact integer arithmetic. *)
Theorem timecodeToMs_formula :
  forall h m s f : uint,
    Z.of_uint f < 2 ^ 32 ->
    formulaMs (Z.of_uint h) (Z.of_uint m) (Z.of_uint s) (Z.of_uint f)
    <= MAX_SAFE_INTEGER ->
    timecodeToMs (digits h ++ ";" ++ digits m ++ ";" ++ digits s ++ ";" ++ digits f)
    = ofZ (formulaMs (Z.of_uint h) (Z.of_uint m) (Z.of_uint s) (Z.of_uint f)).
Proof.
  intros h m s f _ _.
  apply timecodeToMs_parts; auto using allDigits_digits, Number_digits.
Qed.

Lemma timecodeToMs_formula_witness :
  let h := D0 (D1 Nil) in
  let m := D0 (D2 Nil) in
  let s := D0 (D3 Nil) in
  let f := D1 (D5 Nil) in
  Z.of_uint f < 2 ^ 32 /\
  formulaMs (Z.of_uint h) (Z.of_uint m) (Z.of_uint s) (Z.of_uint f)
  <= MAX_SAFE_INTEGER /\
  timecodeToMs "01;02;03;15" = ofZ 3723500.
Proof.
  cbv zeta. split; [reflexivity|]. split; [vm_compute; discriminate|].
  exact (timecodeToMs_formula (D0 (D1 Nil)) (D0 (D2 Nil)) (D0 (D3 Nil)) (D1 (D5 Nil))
           eq_refl ltac:(vm_compute; discriminate)).
Defined.

Lemma zeros_digits (n : nat) (d : uint) :
  string_of_list_ascii (repeat "0"%char n) ++ digits d = digits (Nat.iter n D0 d).
Proof. induction n as [|n IH]; simpl; [reflexivity|now rewrite IH]. Qed.

Lemma of_uint_zeros (n : nat) (d : uint) :
  Z.of_uint (Nat.iter n D0 d) = Z.of_uint d.
Proof. induction n as [|n IH]; simpl; [reflexivity|exact IH]. Qed.

Lemma length_padStart (n : nat) (c : ascii) (s : string) :
  (n <= String.length (padStart n c s))%nat.
Proof.
  unfold padStart. rewrite length_append.
  assert (String.length (string_of_list_ascii (repeat c (n - String.length s)))
          = (n - String.length s)%nat).
  { induction (n - String.length s)%nat as [|k IH]; simpl; [reflexivity|now rewrite IH]. }
  lia.
Qed.

Lemma toString_nonneg (z : Z) :
  0 <= z -> exists u, toString (Some z) = digits u /\ Z.of_uint u = z.
Proof.
  intros Hz. destruct z as [|p|p]; [| |lia].
  - exists zero. split; reflexivity.
  - exists (Pos.to_uint p). split; [reflexivity|].
    exact (DecimalZ.of_to (Zpos p)).
Qed.

Lemma component_digits (z : Z) :
  0 <= z -> exists u, component z = digits u /\ Z.of_uint u = z.
Proof.
  intros Hz. destruct (toString_nonneg z Hz) as (u & Hu & Hval).
  unfold component, padStart. rewrite Hu, zeros_digits.
  eexists. split; [reflexivity|]. now rewrite of_uint_zeros.
Qed.

(** A non-negative component is at least two digits that read back as the
    number. *)
Lemma component_shape (z : Z) :
  0 <= z ->
  (2 <= String.length (component z))%nat /\
  allDigits (component z) = true /\
  Number (component z) = ofZ z.
Proof.
  intros Hz. split; [apply length_padStart|].
  destruct (component_digits z Hz) as (u & -> & <-).
  split; [apply allDigits_digits|apply Number_digits].
Qed.

(** C10: for every non-negative finite [ms] not above [MAX_SAFE_INTEGER],
    [msToTimecode ms] is four components joined by [;] (and splitting at
    [;] gives them back); the minutes and the seconds are in [[0,59]], the
    frames in [[0,29]], the hours are not negative; and every component,
    the decimal writing of its number padded with zeros on the left, is
    made of at least two digits. *)
Theorem msToTimecode_shape :
  forall q : Q,
    (0 <= q)%Q ->
    (q <= inject_Z MAX_SAFE_INTEGER)%Q ->
    exists h mi s f : Z,
      msToTimecode (Num q)
      = join ";" [component h; component mi; component s; component f] /\
      split ";" (msToTimecode (Num q))
      = [component h; component mi; component s; component f] /\
      0 <= h /\ 0 <= mi <= 59 /\ 0 <= s <= 59 /\ 0 <= f <= 29 /\
      Forall (fun c => (2 <= String.length c)%nat /\ allDigits c = true)
             [component h; component mi; component s; component f].
Proof.
  intros q Hq _.
  destruct (msToTimecode_components q Hq) as (h & mi & s & f & Heq & Hh & Hmi & Hs & Hf).
  exists h, mi, s, f.
  destruct (component_shape h Hh) as (Lh & Dh & _).
  destruct (component_shape mi (proj1 Hmi)) as (Lmi & Dmi & _).
  destruct (component_shape s (proj1 Hs)) as (Ls & Ds & _).
  destruct (component_shape f (proj1 Hf)) as (Lf & Df & _).
  split; [exact Heq|].
  split; [rewrite Heq; now apply split_four|].
  repeat (split; [assumption|]).
  repeat constructor; assumption.
Qed.

(** The round trip of a whole number of milliseconds. *)
Lemma round_trip_whole_ms :
  forall z : Z,
    0 <= z ->
    exists r : Z,
      timecodeToMs (msToTimecode (ofZ z)) = ofZ r /\ r <= z <= r + 33.
Proof.
  intros z Hz.
  assert (Hh : 0 <= z / 3600000) by (apply Z.div_pos; lia).
  assert (Hm : 0 <= z mod 3600000 / 60000)
    by (apply Z.div_pos; [apply Z.mod_pos_bound|]; lia).
  assert (Hs : 0 <= z mod 60000 / 1000)
    by (apply Z.div_pos; [apply Z.mod_pos_bound|]; lia).
  assert (Hf : 0 <= z mod 1000 * 30 / 1000).
  { apply Z.div_pos; [|lia]. pose proof (Z.mod_pos_bound z 1000). lia. }
  destruct (component_shape _ Hh) as (_ & Dh & Nh).
  destruct (component_shape _ Hm) as (_ & Dm & Nm).
  destruct (component_shape _ Hs) as (_ & Ds & Ns).
  destruct (component_shape _ Hf) as (_ & Df & Nf).
  rewrite (msToTimecode_ofZ z Hz).
  rewrite (timecodeToMs_parts _ _ _ _ _ _ _ _ Dh Dm Ds Df Nh Nm Ns Nf).
  eexists. split; [reflexivity|].
  unfold formulaMs. Z.to_euclidean_division_equations. lia.
Qed.

Lemma msToTimecode_shape_witness :
  (0 <= 7447001 # 2)%Q /\
  (7447001 # 2 <= inject_Z MAX_SAFE_INTEGER)%Q /\
  exists h mi s f : Z,
    msToTimecode (Num (7447001 # 2))
    = join ";" [component h; component mi; component s; component f] /\
    split ";" (msToTimecode (Num (7447001 # 2)))
    = [component h; component mi; component s; component f] /\
    0 <= h /\ 0 <= mi <= 59 /\ 0 <= s <= 59 /\ 0 <= f <= 29 /\
    Forall (fun c => (2 <= String.length c)%nat /\ allDigits c = true)
           [component h; component mi; component s; component f].
Proof.
  split; [unfold Qle; simpl; lia|].
  split; [unfold Qle; simpl; lia|].
  apply (msToTimecode_shape (7447001 # 2)); unfold Qle; simpl; lia.
Defined.

(** ** The round trip through a timecode *)



(** ** The grouping of the renderer against grouping by adjacency *)

Lemma addSegment_snoc (blocks : list Block) (b : Block) (segment : EnhancedSegment) :
  addSegment (blocks ++ [b]) segment
  = (blocks ++
     (if String.eqb (heading b) (speaker segment)
      then [{| heading := heading b; entries := entries b ++ [entryOf segment] |}]
      else [b; {| heading := speaker segment; entries := [entryOf segment] |}]))%list.
Proof.
  induction blocks as [|b0 blocks IH]; [reflexivity|].
  change ((b0 :: blocks) ++ [b])%list with (b0 :: (blocks ++ [b]))%list.
  simpl addSegment. rewrite IH.
  destruct (blocks ++ [b])%list eqn:E; [|reflexivity].
  destruct blocks; discriminate E.
Qed.

Lemma last_cons_default {A : Type} (l : list A) :
  forall a d : A, last (a :: l) d = last l a.
Proof.
  induction l as [|b l IH]; intros a d; [reflexivity|].
  change (last (a :: b :: l) d) with (last (b :: l) d).
  now rewrite (IH b d), (IH b a).
Qed.

(** Before the last position, one step of the renderer adds the segment
    to the blocks by adjacency, and leaves a collection under way. *)
Lemma collect_addSegment (len : nat) (st : GroupState) (segment : EnhancedSegment)
    (index : nat) :
  Z.of_nat index <> Z.of_nat len - 1 ->
  (pending st = [] -> flushed st = []) ->
  blocksOf (collect len st segment index) = addSegment (blocksOf st) segment /\
  pending (collect len st segment index) <> [].
Proof.
  intros Hidx Hinv. unfold collect, blocksOf.
  apply Z.eqb_neq in Hidx. rewrite Hidx, orb_false_r. simpl.
  destruct (String.eqb_spec (speaker segment) (groupSpeaker st)) as [E|E]; simpl.
  - destruct (pending st) as [|e es] eqn:Hp; simpl.
    + rewrite (Hinv eq_refl). simpl. rewrite E. split; [reflexivity|discriminate].
    + rewrite addSegment_snoc. simpl. rewrite E, String.eqb_refl.
      split; [reflexivity|discriminate].
  - destruct (pending st) as [|e es] eqn:Hp; simpl.
    + rewrite (Hinv eq_refl). simpl. split; [reflexivity|discriminate].
    + rewrite addSegment_snoc. simpl.
      destruct (String.eqb_spec (groupSpeaker st) (speaker segment)) as [E'|E'];
        [congruence|].
      rewrite <- app_assoc. split; [reflexivity|discriminate].
Qed.

(** A run of steps that does not reach the last position. *)
Lemma forEachFrom_addSegment (len : nat) (segments : list EnhancedSegment) :
  forall (index : nat) (st : GroupState),
    (index + List.length segments < len)%nat ->
    (pending st = [] -> flushed st = []) ->
    let st' := forEachFrom (collect len) segments index st in
    blocksOf st' = fold_left addSegment segments (blocksOf st) /\
    (pending st' = [] -> flushed st' = []) /\
    groupSpeaker st' = last (map speaker segments) (groupSpeaker st).
Proof.
  induction segments as [|segment rest IH]; intros index st Hlen Hinv; simpl.
  - repeat split; [exact Hinv].
  - simpl in Hlen.
    destruct (collect_addSegment len st segment index ltac:(lia) Hinv) as [Hb Hp].
    destruct (IH (S index) (collect len st segment index) ltac:(lia)
                 (fun H => False_ind _ (Hp H))) as (H1 & H2 & H3).
    rewrite H1, Hb, H3. repeat split; [exact H2|].
    rewrite (collect_not_last len st segment index) by lia.
    change (map speaker (segment :: rest)) with (speaker segment :: map speaker rest).
    symmetry. apply last_cons_default.
Qed.

(** At the last position the segment is added to the blocks under the
    speaker current before it. *)
Lemma collect_last_addSegment (len : nat) (st : GroupState)
    (segment : EnhancedSegment) (index : nat) :
  Z.of_nat index = Z.of_nat len - 1 ->
  (pending st = [] -> flushed st = []) ->
  flushed (collect len st segment index)
  = addSegment (blocksOf st) (withSpeaker segment (groupSpeaker st)).
Proof.
  intros Hidx Hinv. rewrite (collect_last len st segment index Hidx).
  unfold blocksOf. destruct (pending st) as [|e es] eqn:Hp.
  - rewrite (Hinv eq_refl). reflexivity.
  - rewrite addSegment_snoc. simpl. now rewrite String.eqb_refl.
Qed.

Lemma groupBlocks_snoc_adjacent (front : list EnhancedSegment) (final : EnhancedSegment) :
  groupBlocks (front ++ [final])
  = groupAdjacent (front ++ [withSpeaker final (lastSpeaker front)]).
Proof.
  unfold groupBlocks, groupAdjacent, lastSpeaker.
  rewrite forEachFrom_app, fold_left_app. simpl.
  set (len := List.length (front ++ [final])).
  assert (Hlen : len = (List.length front + 1)%nat)
    by (subst len; rewrite length_app; reflexivity).
  set (st0 := {| flushed := []; groupSpeaker := EmptyString; pending := [] |}).
  destruct (forEachFrom_addSegment len front 0%nat st0 ltac:(lia) (fun _ => eq_refl))
    as (H1 & H2 & H3).
  cbv zeta in H1, H2, H3.
  rewrite collect_last_addSegment by (try exact H2; lia).
  now rewrite H1, H3.
Qed.

Lemma withSpeaker_same (segment : EnhancedSegment) :
  withSpeaker segment (speaker segment) = segment.
Proof. destruct segment; reflexivity. Qed.

Lemma lastSpeaker_snoc (front : list EnhancedSegment) (prev : EnhancedSegment) :
  lastSpeaker (front ++ [prev]) = speaker prev.
Proof.
  unfold lastSpeaker. rewrite map_app. simpl. apply last_last.
Qed.

(** Adding a segment keeps the lines in order, and no block empty. *)
Lemma addSegment_entries (blocks : list Block) (segment : EnhancedSegment) :
  flat_map entries (addSegment blocks segment)
  = (flat_map entries blocks ++ [entryOf segment])%list.
Proof.
  induction blocks as [|b blocks IH]; [reflexivity|].
  destruct blocks as [|b' blocks].
  - simpl. destruct (String.eqb (heading b) (speaker segment)); simpl;
      now rewrite ?app_nil_r.
  - change (addSegment (b :: b' :: blocks) segment)
      with (b :: addSegment (b' :: blocks) segment).
    change (flat_map entries (b :: addSegment (b' :: blocks) segment))
      with (entries b ++ flat_map entries (addSegment (b' :: blocks) segment))%list.
    rewrite IH. simpl. now rewrite !app_assoc.
Qed.

Lemma addSegment_nonempty (blocks : list Block) (segment : EnhancedSegment) :
  Forall (fun b => entries b <> []) blocks ->
  addSegment blocks segment <> [] /\
  Forall (fun b => entries b <> []) (addSegment blocks segment).
Proof.
  induction blocks as [|b blocks IH]; intros H.
  - split; [discriminate|]. repeat constructor. discriminate.
  - inversion H as [|b1 bs1 Hb Hbs]; subst.
    destruct blocks as [|b' blocks].
    + simpl. destruct (String.eqb (heading b) (speaker segment)).
      * split; [discriminate|]. repeat constructor. simpl.
        destruct (entries b); discriminate.
      * split; [discriminate|]. repeat constructor; [exact Hb|discriminate].
    + change (addSegment (b :: b' :: blocks) segment)
        with (b :: addSegment (b' :: blocks) segment).
      split; [discriminate|]. constructor; [exact Hb|]. apply IH, Hbs.
Qed.

Lemma groupAdjacent_entries (segments : list EnhancedSegment) :
  flat_map entries (groupAdjacent segments) = map entryOf segments /\
  Forall (fun b => entries b <> []) (groupAdjacent segments).
Proof.
  unfold groupAdjacent.
  assert (G : forall blocks,
             Forall (fun b => entries b <> []) blocks ->
             flat_map entries (fold_left addSegment segments blocks)
             = (flat_map entries blocks ++ map entryOf segments)%list /\
             Forall (fun b => entries b <> []) (fold_left addSegment segments blocks)).
  { induction segments as [|segment rest IH]; intros blocks Hb; simpl.
    - now rewrite app_nil_r.
    - destruct (IH (addSegment blocks segment)
                   (proj2 (addSegment_nonempty blocks segment Hb))) as [H1 H2].
      rewrite H1, addSegment_entries, <- app_assoc. split; [reflexivity|exact H2]. }
  exact (G [] (Forall_nil _)).
Qed.

Lemma snoc_cases {A : Type} (l : list A) :
  l = [] \/ exists front x, l = (front ++ [x])%list.
Proof.
  destruct l as [|a l]; [now left|right].
  destruct (exists_last (l := a :: l) ltac:(discriminate)) as (front & x & E).
  now exists front, x.
Qed.

(** X1: the grouped-text renderer groups by adjacency up to the last
    segment: on every non-empty sequence its blocks are the blocks of
    grouping by adjacency applied to the sequence in which the last
    segment is attributed to the speaker of the segment before it (to the
    empty initial speaker when it is alone); and both variants are the
    render of these blocks. *)
Theorem generateMarkdown_adjacency_up_to_last :
  forall (front : list EnhancedSegment) (final : EnhancedSegment),
    let relabelled := (front ++ [withSpeaker final (lastSpeaker front)])%list in
    groupBlocks (front ++ [final]) = groupAdjacent relabelled /\
    forall includeTimestamps : bool,
      generateMarkdown (front ++ [final]) includeTimestamps
      = renderBlocks (lineOf includeTimestamps) (groupAdjacent relabelled).
Proof.
  intros front final. cbv zeta.
  split; [apply groupBlocks_snoc_adjacent|].
  intros includeTimestamps.
  now rewrite generateMarkdown_blocks, groupBlocks_snoc_adjacent.
Qed.

(** X2: when the last two segments have the same speaker, the renderer
    is grouping by adjacency: consecutive segments of one speaker form one
    block under that speaker, in both variants. *)
Theorem generateMarkdown_adjacency_same_last_pair :
  forall (front : list EnhancedSegment) (prev final : EnhancedSegment),
    speaker final = speaker prev ->
    groupBlocks (front ++ [prev; final]) = groupAdjacent (front ++ [prev; final]) /\
    forall includeTimestamps : bool,
      generateMarkdown (front ++ [prev; final]) includeTimestamps
      = renderBlocks (lineOf includeTimestamps) (groupAdjacent (front ++ [prev; final])).
Proof.
  intros front prev final Hsame.
  assert (H : groupBlocks (front ++ [prev; final])
              = groupAdjacent (front ++ [prev; final])).
  { change (front ++ [prev; final])%list with (front ++ [prev] ++ [final])%list.
    rewrite app_assoc, groupBlocks_snoc_adjacent, lastSpeaker_snoc.
    now rewrite <- Hsame, withSpeaker_same. }
  split; [exact H|].
  intros includeTimestamps. now rewrite generateMarkdown_blocks, H.
Qed.

Lemma generateMarkdown_adjacency_same_last_pair_witness :
  let segments := [said "A" "x"; said "B" "y"; said "B" "z"] in
  speaker (said "B" "z") = speaker (said "B" "y") /\
  (groupBlocks segments = groupAdjacent segments /\
   forall includeTimestamps : bool,
     generateMarkdown segments includeTimestamps
     = renderBlocks (lineOf includeTimestamps) (groupAdjacent segments)) /\
  generateMarkdown segments false
  = unlines ["**A**"; "x"; EmptyString; "**B**"; "y"; "z"; EmptyString].
Proof.
  cbv zeta. split; [reflexivity|]. split.
  - apply (generateMarkdown_adjacency_same_last_pair
             [said "A" "x"] (said "B" "y") (said "B" "z")).
    reflexivity.
  - vm_compute. reflexivity.
Defined.

Lemma groupBlocks_entries (segments : list EnhancedSegment) :
  flat_map entries (groupBlocks segments) = map entryOf segments /\
  Forall (fun b => entries b <> []) (groupBlocks segments).
Proof.
  destruct (snoc_cases segments) as [->|(front & final & ->)].
  - split; [reflexivity|constructor].
  - rewrite groupBlocks_snoc_adjacent.
    destruct (groupAdjacent_entries (front ++ [withSpeaker final (lastSpeaker front)]))
      as [H1 H2].
    split; [|exact H2].
    rewrite H1, !map_app. reflexivity.
Qed.

(** X3: the renderer loses no segment and writes no empty block: the
    lines of its blocks, in order, are the segments in input order, each
    once, and every block has at least one line. *)
Theorem generateMarkdown_keeps_every_segment :
  forall segments : list EnhancedSegment,
    flat_map entries (groupBlocks segments) = map entryOf segments /\
    Forall (fun b => entries b <> []) (groupBlocks segments) /\
    forall includeTimestamps : bool,
      generateMarkdown segments includeTimestamps
      = renderBlocks (lineOf includeTimestamps) (groupBlocks segments).
Proof.
  intros segments.
  destruct (groupBlocks_entries segments) as [H1 H2].
  split; [exact H1|]. split; [exact H2|].
  intros includeTimestamps. apply generateMarkdown_blocks.
Qed.

Lemma groupBlocks_nil_iff (segments : list EnhancedSegment) :
  groupBlocks segments = [] <-> segments = [].
Proof.
  split; [|intros ->; reflexivity].
  intros H. pose proof (proj1 (groupBlocks_entries segments)) as E.
  rewrite H in E. simpl in E. symmetry in E.
  now apply map_eq_nil in E.
Qed.

(** X4: a grouped text is empty exactly for the empty sequence: as soon
    as there is one segment, both variants are a non-empty text that
    starts with a heading. *)
Theorem generateMarkdown_empty_iff :
  forall (segments : list EnhancedSegment) (includeTimestamps : bool),
    (generateMarkdown segments includeTimestamps = EmptyString <-> segments = []) /\
    (segments <> [] ->
     String.prefix "**" (generateMarkdown segments includeTimestamps) = true).
Proof.
  intros segments includeTimestamps.
  rewrite generateMarkdown_blocks.
  destruct (groupBlocks segments) as [|b bs] eqn:E.
  - apply groupBlocks_nil_iff in E. subst. split; [now split|]. intros H. now elim H.
  - assert (Hne : segments <> []).
    { intros ->. discriminate E. }
    unfold renderBlocks, renderBlock. simpl.
    split.
    + split; [discriminate|]. intros ->. now elim Hne.
    + intros _.
      match goal with |- String.prefix EmptyString ?x = true => now destruct x end.
Qed.

Lemma groupAdjacent_uniform (who : string) (segments : list EnhancedSegment) :
  Forall (fun s => speaker s = who) segments ->
  forall es,
    es <> [] ->
    fold_left addSegment segments [{| heading := who; entries := es |}]
    = [{| heading := who; entries := es ++ map entryOf segments |}].
Proof.
  induction 1 as [|s rest Hs _ IH]; intros es Hes; simpl.
  - now rewrite app_nil_r.
  - rewrite Hs, String.eqb_refl. rewrite IH.
    + now rewrite <- app_assoc.
    + destruct es; discriminate.
Qed.

Lemma groupAdjacent_uniform_nonempty (who : string) (segments : list EnhancedSegment) :
  Forall (fun s => speaker s = who) segments ->
  segments <> [] ->
  groupAdjacent segments = [{| heading := who; entries := map entryOf segments |}].
Proof.
  intros Hall Hne. destruct segments as [|s0 rest]; [congruence|].
  pose proof (Forall_inv Hall) as Hs0. simpl in Hs0.
  unfold groupAdjacent. simpl. rewrite Hs0.
  apply (groupAdjacent_uniform who rest (Forall_inv_tail Hall) [entryOf s0]).
  discriminate.
Qed.

Lemma groupBlocks_single_speaker (who : string) (segments : list EnhancedSegment) :
  Forall (fun s => speaker s = who) segments ->
  (2 <= List.length segments)%nat ->
  groupBlocks segments = [{| heading := who; entries := map entryOf segments |}].
Proof.
  intros Hall Hlen.
  destruct (snoc_cases segments) as [->|(front & final & ->)];
    [simpl in Hlen; lia|].
  destruct (snoc_cases front) as [->|(front' & prev & ->)];
    [simpl in Hlen; lia|].
  pose proof Hall as Hall'.
  apply Forall_app in Hall'. destruct Hall' as [Hfront Hfinal].
  pose proof (Forall_inv Hfinal) as Hf. simpl in Hf.
  apply Forall_app in Hfront. destruct Hfront as [_ Hprev].
  pose proof (Forall_inv Hprev) as Hp. simpl in Hp.
  rewrite groupBlocks_snoc_adjacent, lastSpeaker_snoc.
  rewrite Hp. rewrite <- Hf at 1. rewrite withSpeaker_same.
  apply (groupAdjacent_uniform_nonempty who _ Hall).
  destruct front'; discriminate.
Qed.

Lemma renderBlocks_single (line : Entry -> string) (b : Block) :
  renderBlocks line [b] = renderBlock line b.
Proof. unfold renderBlocks. cbn [map flatten fold_right]. apply append_empty_r. Qed.

(** X5: when two or more segments all have the same speaker, both
    variants are the single block of that speaker with every segment's
    line in order. *)
Theorem generateMarkdown_single_speaker :
  forall (who : string) (segments : list EnhancedSegment),
    Forall (fun s => speaker s = who) segments ->
    (2 <= List.length segments)%nat ->
    let block := {| heading := who; entries := map entryOf segments |} in
    groupBlocks segments = [block] /\
    forall includeTimestamps : bool,
      generateMarkdown segments includeTimestamps
      = renderBlock (lineOf includeTimestamps) block.
Proof.
  intros who segments Hall Hlen. cbv zeta.
  pose proof (groupBlocks_single_speaker who segments Hall Hlen) as H.
  split; [exact H|].
  intros includeTimestamps.
  now rewrite generateMarkdown_blocks, H, renderBlocks_single.
Qed.

Lemma generateMarkdown_single_speaker_witness :
  let segments := [said "A" "x"; said "A" "y"; said "A" "z"] in
  Forall (fun s => speaker s = "A") segments /\
  (2 <= List.length segments)%nat /\
  (let block := {| heading := "A"; entries := map entryOf segments |} in
   groupBlocks segments = [block] /\
   forall includeTimestamps : bool,
     generateMarkdown segments includeTimestamps
     = renderBlock (lineOf includeTimestamps) block).
Proof.
  cbv zeta.
  assert (H : Forall (fun s => speaker s = "A")
                     [said "A" "x"; said "A" "y"; said "A" "z"])
    by (repeat constructor).
  split; [exact H|]. split; [simpl; lia|].
  apply (generateMarkdown_single_speaker "A" _ H). simpl; lia.
Defined.

(** ** Timecodes: missing and extra components, order, re-encoding *)

Lemma num_add_NaN_r (a : number) : num_add a NaN = NaN.
Proof. destruct a; reflexivity. Qed.

Lemma split_nonempty (sep : ascii) (s : string) : split sep s <> [].
Proof.
  induction s as [|c s IH]; simpl; [discriminate|].
  destruct (Ascii.eqb c sep); [discriminate|].
  destruct (split sep s); discriminate.
Qed.

Lemma split_app (sep : ascii) (a b : string) :
  split sep (a ++ String sep b) = (split sep a ++ split sep b)%list.
Proof.
  induction a as [|c a IH]; simpl.
  - now rewrite Ascii.eqb_refl.
  - destruct (Ascii.eqb c sep); [now rewrite IH|].
    rewrite IH. pose proof (split_nonempty sep a) as Hne.
    destruct (split sep a); [congruence|reflexivity].
Qed.

(** X6: a timecode with fewer than four components separated by [;]
    converts to [NaN], whatever the components are. *)
Theorem timecodeToMs_missing_component :
  forall timecode : string,
    (List.length (split ";" timecode) < 4)%nat ->
    timecodeToMs timecode = NaN.
Proof.
  intros timecode Hlen. unfold timecodeToMs.
  rewrite (nth_overflow (map Number (split ";" timecode)) NaN (n := 3))
    by (rewrite length_map; lia).
  cbn [num_mul Math_floor ofInt]. apply num_add_NaN_r.
Qed.

Lemma timecodeToMs_missing_component_witness :
  (List.length (split ";" "00;00;05") < 4)%nat /\ timecodeToMs "00;00;05" = NaN.
Proof.
  split; [simpl; lia|].
  apply (timecodeToMs_missing_component "00;00;05"). simpl; lia.
Defined.

(** X7: components after the fourth are ignored: a timecode that has
    four components or more converts to the same number when [;] and
    anything else is written after it. *)
Theorem timecodeToMs_extra_components :
  forall timecode extra : string,
    (4 <= List.length (split ";" timecode))%nat ->
    timecodeToMs (timecode ++ ";" ++ extra) = timecodeToMs timecode.
Proof.
  intros timecode extra Hlen. unfold timecodeToMs.
  change (";" ++ extra) with (String ";" extra).
  rewrite split_app, map_app.
  rewrite !app_nth1 by (rewrite length_map; lia).
  reflexivity.
Qed.

Lemma timecodeToMs_extra_components_witness :
  (4 <= List.length (split ";" "01;02;03;15"))%nat /\
  timecodeToMs ("01;02;03;15" ++ ";" ++ "29;xyz") = timecodeToMs "01;02;03;15".
Proof.
  split; [simpl; lia|].
  apply (timecodeToMs_extra_components "01;02;03;15" "29;xyz"). simpl; lia.
Defined.

Lemma wellFormed_spec (h m s f : Z) :
  wellFormed h m s f = true ->
  0 <= h /\ 0 <= m < 60 /\ 0 <= s < 60 /\ 0 <= f < 30.
Proof.
  unfold wellFormed. rewrite !andb_true_iff.
  rewrite !Z.leb_le, !Z.ltb_lt. lia.
Qed.

Lemma ofZ_inj (a b : Z) : ofZ a = ofZ b -> a = b.
Proof. unfold ofZ, inject_Z. now intros [= ->]. Qed.

(** The milliseconds of a timecode written from non-negative components. *)
Lemma timecodeToMs_timecodeOf (h m s f : Z) :
  0 <= h -> 0 <= m -> 0 <= s -> 0 <= f ->
  timecodeToMs (timecodeOf h m s f) = ofZ (formulaMs h m s f).
Proof.
  intros Hh Hm Hs Hf.
  destruct (component_shape h Hh) as (_ & Dh & Nh).
  destruct (component_shape m Hm) as (_ & Dm & Nm).
  destruct (component_shape s Hs) as (_ & Ds & Ns).
  destruct (component_shape f Hf) as (_ & Df & Nf).
  exact (timecodeToMs_parts _ _ _ _ _ _ _ _ Dh Dm Ds Df Nh Nm Ns Nf).
Qed.

(** The formula counts the frames, at 100/3 milliseconds each. *)
Lemma formulaMs_frameCount (h m s f : Z) :
  formulaMs h m s f = frameCount h m s f * 100 / 3.
Proof.
  unfold formulaMs, frameCount. Z.to_euclidean_division_equations. lia.
Qed.

(** X8: on well-formed timecodes whose milliseconds are not above
    [MAX_SAFE_INTEGER], [timecodeToMs] is strictly increasing in the time
    the timecode denotes: the earlier timecode, counted in frames, gets
    the smaller number of milliseconds; so timecodes of different
    components convert to different numbers. *)
Theorem timecodeToMs_increasing :
  forall h1 m1 s1 f1 h2 m2 s2 f2 : Z,
    wellFormed h1 m1 s1 f1 = true ->
    wellFormed h2 m2 s2 f2 = true ->
    formulaMs h1 m1 s1 f1 <= MAX_SAFE_INTEGER ->
    formulaMs h2 m2 s2 f2 <= MAX_SAFE_INTEGER ->
    exists a b : Z,
      timecodeToMs (timecodeOf h1 m1 s1 f1) = ofZ a /\
      timecodeToMs (timecodeOf h2 m2 s2 f2) = ofZ b /\
      (a < b <-> frameCount h1 m1 s1 f1 < frameCount h2 m2 s2 f2) /\
      (a = b <-> h1 = h2 /\ m1 = m2 /\ s1 = s2 /\ f1 = f2).
Proof.
  intros h1 m1 s1 f1 h2 m2 s2 f2 W1 W2 _ _.
  apply wellFormed_spec in W1. apply wellFormed_spec in W2.
  exists (formulaMs h1 m1 s1 f1), (formulaMs h2 m2 s2 f2).
  split; [apply timecodeToMs_timecodeOf; lia|].
  split; [apply timecodeToMs_timecodeOf; lia|].
  rewrite !formulaMs_frameCount.
  assert (Hidx : frameCount h1 m1 s1 f1 = frameCount h2 m2 s2 f2 <->
                 h1 = h2 /\ m1 = m2 /\ s1 = s2 /\ f1 = f2)
    by (unfold frameCount; lia).
  revert Hidx.
  generalize (frameCount h1 m1 s1 f1) (frameCount h2 m2 s2 f2). intros i1 i2 Hidx.
  split.
  - Z.to_euclidean_division_equations. lia.
  - rewrite <- Hidx. Z.to_euclidean_division_equations. lia.
Qed.

Lemma timecodeToMs_increasing_witness :
  wellFormed 0 59 59 29 = true /\ wellFormed 1 0 0 0 = true /\
  formulaMs 0 59 59 29 <= MAX_SAFE_INTEGER /\
  formulaMs 1 0 0 0 <= MAX_SAFE_INTEGER /\
  exists a b : Z,
    timecodeToMs (timecodeOf 0 59 59 29) = ofZ a /\
    timecodeToMs (timecodeOf 1 0 0 0) = ofZ b /\
    (a < b <-> frameCount 0 59 59 29 < frameCount 1 0 0 0) /\
    (a = b <-> 0 = 1 /\ 59 = 0 /\ 59 = 0 /\ 29 = 0).
Proof.
  split; [reflexivity|]. split; [reflexivity|].
  split; [vm_compute; discriminate|]. split; [vm_compute; discriminate|].
  apply (timecodeToMs_increasing 0 59 59 29 1 0 0 0);
    try reflexivity; vm_compute; discriminate.
Defined.

Lemma msToTimecode_timecodeOf (z : Z) :
  0 <= z ->
  msToTimecode (ofZ z)
  = timecodeOf (z / 3600000) (z mod 3600000 / 60000) (z mod 60000 / 1000)
      (z mod 1000 * 30 / 1000).
Proof. intros Hz. now rewrite msToTimecode_ofZ. Qed.

(** X9: writing back the milliseconds of a well-formed timecode, when
    they are not above [MAX_SAFE_INTEGER], gives the same hours, minutes
    and seconds, and the same frames only when the frames are a multiple
    of 3: otherwise one frame is lost. *)
Theorem msToTimecode_of_timecodeToMs :
  forall h m s f : Z,
    wellFormed h m s f = true ->
    formulaMs h m s f <= MAX_SAFE_INTEGER ->
    exists ms : Z,
      timecodeToMs (timecodeOf h m s f) = ofZ ms /\
      msToTimecode (ofZ ms)
      = timecodeOf h m s (if f mod 3 =? 0 then f else f - 1).
Proof.
  intros h m s f W _. apply wellFormed_spec in W.
  exists (formulaMs h m s f).
  split; [apply timecodeToMs_timecodeOf; lia|].
  assert (Hz : 0 <= formulaMs h m s f)
    by (unfold formulaMs; Z.to_euclidean_division_equations; lia).
  rewrite (msToTimecode_timecodeOf _ Hz).
  assert (E1 : formulaMs h m s f / 3600000 = h)
    by (unfold formulaMs; Z.to_euclidean_division_equations; lia).
  assert (E2 : formulaMs h m s f mod 3600000 / 60000 = m)
    by (unfold formulaMs; Z.to_euclidean_division_equations; lia).
  assert (E3 : formulaMs h m s f mod 60000 / 1000 = s)
    by (unfold formulaMs; Z.to_euclidean_division_equations; lia).
  assert (E4 : formulaMs h m s f mod 1000 * 30 / 1000
               = if f mod 3 =? 0 then f else f - 1).
  { destruct (Z.eqb_spec (f mod 3) 0) as [E|E];
      unfold formulaMs; Z.to_euclidean_division_equations; lia. }
  now rewrite E1, E2, E3, E4.
Qed.

Lemma msToTimecode_of_timecodeToMs_witness :
  wellFormed 1 2 3 16 = true /\
  formulaMs 1 2 3 16 <= MAX_SAFE_INTEGER /\
  exists ms : Z,
    timecodeToMs (timecodeOf 1 2 3 16) = ofZ ms /\
    msToTimecode (ofZ ms)
    = timecodeOf 1 2 3 (if 16 mod 3 =? 0 then 16 else 16 - 1).
Proof.
  split; [reflexivity|]. split; [vm_compute; discriminate|].
  apply (msToTimecode_of_timecodeToMs 1 2 3 16);
    [reflexivity|vm_compute; discriminate].
Defined.

(** The value of the round trip of a whole number of milliseconds. *)
Lemma round_trip_value (z : Z) :
  0 <= z ->
  timecodeToMs (msToTimecode (ofZ z))
  = ofZ (formulaMs (z / 3600000) (z mod 3600000 / 60000) (z mod 60000 / 1000)
           (z mod 1000 * 30 / 1000)).
Proof.
  intros Hz. rewrite (msToTimecode_timecodeOf z Hz).
  apply timecodeToMs_timecodeOf.
  - apply Z.div_pos; lia.
  - apply Z.div_pos; [apply Z.mod_pos_bound|]; lia.
  - apply Z.div_pos; [apply Z.mod_pos_bound|]; lia.
  - apply Z.div_pos; [|lia]. pose proof (Z.mod_pos_bound z 1000). lia.
Qed.

(** X10: the round trip through a timecode gives back a non-negative
    whole number of milliseconds not above [MAX_SAFE_INTEGER] exactly when
    it is a multiple of 100. *)
Theorem timecode_round_trip_exact_iff :
  forall z : Z,
    0 <= z ->
    z <= MAX_SAFE_INTEGER ->
    (timecodeToMs (msToTimecode (ofZ z)) = ofZ z <-> z mod 100 = 0).
Proof.
  intros z Hz _. rewrite (round_trip_value z Hz). split.
  - intros H. apply ofZ_inj in H. revert H. unfold formulaMs.
    Z.to_euclidean_division_equations. lia.
  - intros H. f_equal. revert H. unfold formulaMs.
    Z.to_euclidean_division_equations. lia.
Qed.

Lemma timecode_round_trip_exact_iff_witness :
  0 <= 7261300 /\ 7261300 <= MAX_SAFE_INTEGER /\
  (timecodeToMs (msToTimecode (ofZ 7261300)) = ofZ 7261300 <-> 7261300 mod 100 = 0).
Proof.
  split; [lia|]. split; [unfold MAX_SAFE_INTEGER; lia|].
  apply (timecode_round_trip_exact_iff 7261300); unfold MAX_SAFE_INTEGER; lia.
Defined.

(** ** Speaker resolution: what the result can be, and what it ignores *)

Lemma findSpeakerAtTime_membership (m : number) (markers : list PremiereSegment) :
  findSpeakerAtTime m markers = "Unknown" \/
  In (findSpeakerAtTime m markers) (map Speaker_Name markers).
Proof.
  induction markers as [|marker rest IH]; simpl; [now left|].
  destruct (num_ge m (timecodeToMs (Start_Time marker)) &&
            num_le m (timecodeToMs (End_Time marker))).
  - right. now left.
  - destruct IH as [IH|IH]; [now left|right; now right].
Qed.

Lemma findSpeakerAtTime_filter (m : number) (markers : list PremiereSegment) :
  findSpeakerAtTime m markers
  = findSpeakerAtTime m (filter (intervalContains m) markers).
Proof.
  induction markers as [|marker rest IH]; simpl; [reflexivity|].
  rewrite loop_test_is_containment.
  destruct (intervalContains m marker) eqn:E; simpl.
  - now rewrite loop_test_is_containment, E.
  - exact IH.
Qed.

Lemma intervalContains_NaN_bound (m : number) (marker : PremiereSegment) :
  timecodeToMs (Start_Time marker) = NaN \/ timecodeToMs (End_Time marker) = NaN ->
  intervalContains m marker = false.
Proof.
  unfold intervalContains. intros [H|H]; rewrite H.
  - reflexivity.
  - unfold num_le at 2. destruct m; apply andb_false_r.
Qed.

(** X11: the speaker found is the sentinel or the name of one of the
    markers, and it depends only on the markers whose interval contains
    the time, in their order: markers that do not contain it can be
    removed.  Such are the markers one of whose timecodes has fewer than
    four components, and the markers that start after they end. *)
Theorem findSpeakerAtTime_ignores_other_markers :
  forall (m : number) (markers : list PremiereSegment),
    (findSpeakerAtTime m markers = "Unknown" \/
     In (findSpeakerAtTime m markers) (map Speaker_Name markers)) /\
    findSpeakerAtTime m markers
    = findSpeakerAtTime m (filter (intervalContains m) markers) /\
    (forall marker,
        ((List.length (split ";" (Start_Time marker)) < 4)%nat \/
         (List.length (split ";" (End_Time marker)) < 4)%nat) ->
        intervalContains m marker = false) /\
    (forall marker lo hi,
        timecodeToMs (Start_Time marker) = Num lo ->
        timecodeToMs (End_Time marker) = Num hi ->
        (hi < lo)%Q ->
        intervalContains m marker = false).
Proof.
  intros m markers.
  split; [apply findSpeakerAtTime_membership|].
  split; [apply findSpeakerAtTime_filter|].
  split.
  - intros marker [H|H]; apply intervalContains_NaN_bound; [left|right];
      unfold timecodeToMs;
      rewrite (nth_overflow (map Number (split ";" _)) NaN (n := 3))
        by (rewrite length_map; lia);
      cbn [num_mul Math_floor ofInt]; apply num_add_NaN_r.
  - intros marker lo hi Hlo Hhi Hlt.
    destruct (intervalContains m marker) eqn:E; [|reflexivity].
    apply intervalContains_spec in E.
    destruct E as (s & x & e & Hs & _ & He & H1 & H2).
    rewrite Hlo in Hs. rewrite Hhi in He.
    injection Hs as <-. injection He as <-. lra.
Qed.

Lemma findSpeakerAtTime_ignores_other_markers_witness :
  let short := {| Speaker_Name := "Bob"; Start_Time := "00;00;00";
                  End_Time := "00;00;05;00"; Text := EmptyString |} in
  intervalContains (ofZ 2000) short = false /\
  findSpeakerAtTime (ofZ 2000) [short; aliceMarker] = "Alice".
Proof.
  cbv zeta. split.
  - apply (proj1 (proj2 (proj2 (findSpeakerAtTime_ignores_other_markers (ofZ 2000) [])))).
    left. simpl. lia.
  - rewrite (proj1 (proj2 (findSpeakerAtTime_ignores_other_markers (ofZ 2000) _))).
    vm_compute. reflexivity.
Defined.

(** ** The merge: where the midpoint falls *)

(** The speaker of an aligned segment is the one found at the midpoint. *)
Lemma enhance_speaker (premiereSegments : list PremiereSegment)
    (whisperSegment : WhisperSegment) :
  speaker (enhance premiereSegments whisperSegment)
  = findSpeakerAtTime (midpointMs (start whisperSegment) (end_ whisperSegment))
      premiereSegments.
Proof. reflexivity. Qed.

(** The midpoint of two numbers lies between them. *)
Lemma midpoint_between (s e : Q) :
  (s <= e)%Q ->
  exists q : Q, midpointMs (Num s) (Num e) = Num q /\ (s <= q)%Q /\ (q <= e)%Q.
Proof.
  intros Hle. unfold midpointMs, num_sub, num_div, ofZ, num.
  rewrite (Qeq_bool_inject_Z_0 2) by lia.
  unfold num_add, num. eexists. split; [reflexivity|].
  rewrite !Qred_correct. change (inject_Z 2) with 2%Q.
  split.
  - assert (0 <= (e - s) / 2)%Q; [|lra].
    apply Qle_shift_div_l; [reflexivity|lra].
  - assert ((e - s) / 2 <= e - s)%Q; [|lra].
    apply Qle_shift_div_r; [reflexivity|lra].
Qed.

(** X12: for a start and an end that are numbers between
    [- MAX_SAFE_INTEGER] and [MAX_SAFE_INTEGER], with [start <= end], the
    speaker looked up at the midpoint is that of a marker when the
    marker's interval contains the start and the end and no marker listed
    before it contains any time from the start to the end. *)
Theorem midpoint_inside_marker :
  forall (before : list PremiereSegment) (marker : PremiereSegment)
         (after : list PremiereSegment) (s e : Q),
    (- inject_Z MAX_SAFE_INTEGER <= s)%Q ->
    (s <= e)%Q ->
    (e <= inject_Z MAX_SAFE_INTEGER)%Q ->
    intervalContains (Num s) marker = true ->
    intervalContains (Num e) marker = true ->
    (forall other t,
        In other before -> (s <= t)%Q -> (t <= e)%Q ->
        intervalContains (Num t) other = false) ->
    findSpeakerAtTime (midpointMs (Num s) (Num e)) (before ++ marker :: after)
    = Speaker_Name marker.
Proof.
  intros before marker after s e _ Hle _ Cs Ce Hbefore.
  destruct (midpoint_between s e Hle) as (q & -> & Hq1 & Hq2).
  rewrite findSpeakerAtTime_resolveSpeaker. unfold resolveSpeaker.
  rewrite (find_first (intervalContains (Num q)) before marker after).
  - reflexivity.
  - intros other Hin. now apply (Hbefore other q).
  - apply intervalContains_spec in Cs. apply intervalContains_spec in Ce.
    destruct Cs as (lo & x & hi & Hlo & [= <-] & Hhi & H1 & H2).
    destruct Ce as (lo' & x' & hi' & Hlo' & [= <-] & Hhi' & H1' & H2').
    apply intervalContains_spec. exists lo, q, hi.
    rewrite Hlo in Hlo'. rewrite Hhi in Hhi'.
    injection Hlo' as <-. injection Hhi' as <-.
    repeat split; try assumption; lra.
Qed.

Lemma midpoint_inside_marker_witness :
  let bob := {| Speaker_Name := "Bob"; Start_Time := "00;00;10;00";
                End_Time := "00;00;20;00"; Text := EmptyString |} in
  findSpeakerAtTime (midpointMs (ofZ 1000) (ofZ 3000)) ([bob] ++ aliceMarker :: [])
  = "Alice" /\
  speaker (enhance ([bob] ++ aliceMarker :: []) helloSegment) = "Alice".
Proof.
  cbv zeta.
  assert (H : findSpeakerAtTime (midpointMs (ofZ 1000) (ofZ 3000))
                ([{| Speaker_Name := "Bob"; Start_Time := "00;00;10;00";
                     End_Time := "00;00;20;00"; Text := EmptyString |}]
                 ++ aliceMarker :: [])
              = "Alice").
  { apply (midpoint_inside_marker [_] aliceMarker [] (inject_Z 1000) (inject_Z 3000)).
    - unfold Qle; simpl; lia.
    - unfold Qle; simpl; lia.
    - unfold Qle; simpl; lia.
    - vm_compute. reflexivity.
    - vm_compute. reflexivity.
    - intros other t [<-|[]] H1 H2.
      destruct (intervalContains (Num t) _) eqn:E; [|reflexivity].
      apply intervalContains_spec in E.
      destruct E as (lo & x & hi & Hlo & [= <-] & Hhi & Hl & Hh).
      vm_compute in Hlo. injection Hlo as <-.
      exfalso. apply (Qle_not_lt _ _ Hl).
      eapply Qle_lt_trans; [exact H2|]. reflexivity. }
  split; [exact H|]. rewrite enhance_speaker. exact H.
Defined.

(** ** The route action *)

Lemma trimEnd_not_falsy (c : ascii) (rest : string) :
  isWhiteSpace c = false -> falsy (trimEnd (String c rest)) = false.
Proof.
  intros Hc. simpl. destruct (trimEnd rest); [now rewrite Hc|reflexivity].
Qed.

(** The table is never blank: it starts with the header record. *)
Lemma csv_not_blank (enhancedSegments : list EnhancedSegment) :
  falsy (trim (csv (renderAll enhancedSegments))) = false.
Proof.
  cbn [csv renderAll]. unfold stringify.
  set (rest := flatten _). clearbody rest.
  assert (E : exists r, stringifyRecord columns = String DQUOTE r)
    by (eexists; vm_compute; reflexivity).
  destruct E as (r & ->).
  change (String DQUOTE r ++ rest) with (String DQUOTE (r ++ rest)).
  unfold trim. cbn [trimStart].
  change (isWhiteSpace DQUOTE) with false. cbv iota.
  now apply trimEnd_not_falsy.
Qed.

Lemma mergeTranscripts_returned
    (parseWhisper : string -> outcome (list WhisperSegment))
    (parsePremiere : string -> outcome (list PremiereSegment))
    (whisperCsv premiereCsv : string) (out : TranscriptOutput) :
  mergeTranscripts parseWhisper parsePremiere whisperCsv premiereCsv = Returned out ->
  exists whisperSegments premiereSegments,
    parseWhisper whisperCsv = Returned whisperSegments /\
    parsePremiere premiereCsv = Returned premiereSegments /\
    out = renderAll (enhanceSegments whisperSegments premiereSegments).
Proof.
  unfold mergeTranscripts.
  destruct (parseWhisper whisperCsv) as [ws|e]; [|discriminate].
  destruct (parsePremiere premiereCsv) as [ps|e]; [|discriminate].
  intros [= <-]. now exists ws, ps.
Qed.

(** X15: the action never answers that no valid segments were found:
    whatever the files, the parsers and the clock, the table of a merge
    that returns starts with the header record and is not blank, so the
    guard on a blank table does not fire. *)
Theorem action_never_no_valid_segments :
  forall (parseWhisper : string -> outcome (list WhisperSegment))
         (parsePremiere : string -> outcome (list PremiereSegment))
         (isoNow : string) (whisperFile premiereFile : option string)
         (details : option string),
    action parseWhisper parsePremiere isoNow whisperFile premiereFile
    <> ActionError "No valid segments were found to merge" details.
Proof.
  intros parseWhisper parsePremiere isoNow whisperFile premiereFile details.
  unfold action.
  destruct whisperFile as [whisperText|]; [|discriminate].
  destruct premiereFile as [premiereText|]; [|discriminate].
  destruct (falsy (trim whisperText) || falsy (trim premiereText)); [discriminate|].
  destruct (mergeTranscripts parseWhisper parsePremiere whisperText premiereText)
    as [out|message] eqn:E; [|discriminate].
  destruct (mergeTranscripts_returned _ _ _ _ _ E) as (ws & ps & _ & _ & ->).
  rewrite csv_not_blank. discriminate.
Qed.

(** X16: the action succeeds exactly when both files are there, neither
    text is blank and the merge returns; its answer then carries the three
    renders of the merge, and as file name the part of the clock reading
    before its first [T]. *)
Theorem action_success_iff :
  forall (parseWhisper : string -> outcome (list WhisperSegment))
         (parsePremiere : string -> outcome (list PremiereSegment))
         (isoNow : string) (whisperFile premiereFile : option string)
         (csvData withTimestamps clean filename : string),
    action parseWhisper parsePremiere isoNow whisperFile premiereFile
    = ActionSuccess csvData withTimestamps clean filename
    <->
    exists whisperText premiereText out,
      whisperFile = Some whisperText /\ premiereFile = Some premiereText /\
      trim whisperText <> EmptyString /\ trim premiereText <> EmptyString /\
      mergeTranscripts parseWhisper parsePremiere whisperText premiereText
      = Returned out /\
      csvData = csv out /\ withTimestamps = markdownWithTimestamps out /\
      clean = markdownClean out /\
      filename = nth 0 (split "T" isoNow) EmptyString.
Proof.
  intros parseWhisper parsePremiere isoNow whisperFile premiereFile
         csvData withTimestamps clean filename.
  unfold action. split.
  - destruct whisperFile as [whisperText|]; [|discriminate].
    destruct premiereFile as [premiereText|]; [|discriminate].
    destruct (falsy (trim whisperText) || falsy (trim premiereText)) eqn:Hblank;
      [discriminate|].
    apply orb_false_iff in Hblank. destruct Hblank as [Hw Hp].
    destruct (mergeTranscripts parseWhisper parsePremiere whisperText premiereText)
      as [out|message] eqn:E; [|discriminate].
    destruct (falsy (trim (csv out))); [discriminate|].
    intros [= <- <- <- <-].
    exists whisperText, premiereText, out.
    repeat split; try reflexivity; try exact E.
    + intros H. rewrite H in Hw. discriminate Hw.
    + intros H. rewrite H in Hp. discriminate Hp.
  - intros (whisperText & premiereText & out & -> & -> & Hw & Hp & E & -> & -> & -> & ->).
    assert (Fw : falsy (trim whisperText) = false)
      by (destruct (trim whisperText); [congruence|reflexivity]).
    assert (Fp : falsy (trim premiereText) = false)
      by (destruct (trim premiereText); [congruence|reflexivity]).
    rewrite Fw, Fp, E. cbn [orb].
    destruct (mergeTranscripts_returned _ _ _ _ _ E) as (ws & ps & _ & _ & ->).
    now rewrite csv_not_blank.
Qed.

(** X17: for two files that are there and not blank, an error thrown by
    the parser of the speech source is the one reported, whatever the
    editor source is; an error of the parser of the editor source is
    reported when the speech source parses.  The answer is
    [Error processing files.] with the details chosen from the message of
    the error: the ones on quotes as soon as the message contains
    [INVALID_OPENING_QUOTE], also when it contains [columns]. *)
Theorem action_reports_first_parse_error :
  forall (parseWhisper : string -> outcome (list WhisperSegment))
         (parsePremiere : string -> outcome (list PremiereSegment))
         (isoNow whisperText premiereText : string),
    trim whisperText <> EmptyString ->
    trim premiereText <> EmptyString ->
    (forall message,
        parseWhisper whisperText = Thrown message ->
        action parseWhisper parsePremiere isoNow (Some whisperText) (Some premiereText)
        = ActionError "Error processing files." (Some (errorDetails message))) /\
    (forall whisperSegments message,
        parseWhisper whisperText = Returned whisperSegments ->
        parsePremiere premiereText = Thrown message ->
        action parseWhisper parsePremiere isoNow (Some whisperText) (Some premiereText)
        = ActionError "Error processing files." (Some (errorDetails message))) /\
    (forall message,
        includes message "INVALID_OPENING_QUOTE" = true ->
        errorDetails message
        = "One of your CSV files has invalid quote formatting. Please check for mismatched quotes or try re-exporting the file.").
Proof.
  intros parseWhisper parsePremiere isoNow whisperText premiereText Hw Hp.
  assert (Fw : falsy (trim whisperText) = false)
    by (destruct (trim whisperText); [congruence|reflexivity]).
  assert (Fp : falsy (trim premiereText) = false)
    by (destruct (trim premiereText); [congruence|reflexivity]).
  unfold action, mergeTranscripts. rewrite Fw, Fp. cbn [orb].
  split; [|split].
  - intros message E. now rewrite E.
  - intros whisperSegments message E1 E2. now rewrite E1, E2.
  - intros message H. unfold errorDetails. now rewrite H.
Qed.

Lemma action_reports_first_parse_error_witness :
  let parseWhisper : string -> outcome (list WhisperSegment) :=
    fun _ => Thrown "INVALID_OPENING_QUOTE: wrong columns" in
  let parsePremiere : string -> outcome (list PremiereSegment) :=
    fun _ => Thrown "Invalid Record Length: columns length is 4, got 2" in
  trim "start,end" <> EmptyString /\ trim "Speaker Name" <> EmptyString /\
  action parseWhisper parsePremiere "2024-05-06T07:08:09.000Z"
    (Some "start,end") (Some "Speaker Name")
  = ActionError "Error processing files."
      (Some "One of your CSV files has invalid quote formatting. Please check for mismatched quotes or try re-exporting the file.").
Proof.
  cbv zeta.
  split; [vm_compute; discriminate|]. split; [vm_compute; discriminate|].
  rewrite (proj1 (action_reports_first_parse_error
                    (fun _ => Thrown "INVALID_OPENING_QUOTE: wrong columns")
                    (fun _ => Thrown "Invalid Record Length: columns length is 4, got 2")
                    "2024-05-06T07:08:09.000Z" "start,end" "Speaker Name"
                    ltac:(vm_compute; discriminate) ltac:(vm_compute; discriminate))
                 "INVALID_OPENING_QUOTE: wrong columns" eq_refl).
  reflexivity.
Defined.

(** ** The frame that a time is written as *)

(** X18: the timecode written for a non-negative whole number of
    milliseconds not above [MAX_SAFE_INTEGER] is well-formed, and it is
    the timecode of the frame number [floor (ms * 30 / 1000)]. *)
Theorem msToTimecode_frame_number :
  forall z : Z,
    0 <= z ->
    z <= MAX_SAFE_INTEGER ->
    exists h m s f : Z,
      msToTimecode (ofZ z) = timecodeOf h m s f /\
      wellFormed h m s f = true /\
      frameCount h m s f = z * 30 / 1000.
Proof.
  intros z Hz _.
  exists (z / 3600000), (z mod 3600000 / 60000), (z mod 60000 / 1000),
         (z mod 1000 * 30 / 1000).
  split; [apply msToTimecode_timecodeOf, Hz|].
  split.
  - unfold wellFormed. rewrite !andb_true_iff, !Z.leb_le, !Z.ltb_lt.
    Z.to_euclidean_division_equations. lia.
  - unfold frameCount. Z.to_euclidean_division_equations. lia.
Qed.

Lemma msToTimecode_frame_number_witness :
  0 <= 3723500 /\ 3723500 <= MAX_SAFE_INTEGER /\
  exists h m s f : Z,
    msToTimecode (ofZ 3723500) = timecodeOf h m s f /\
    wellFormed h m s f = true /\
    frameCount h m s f = 3723500 * 30 / 1000.
Proof.
  split; [lia|]. split; [unfold MAX_SAFE_INTEGER; lia|].
  apply (msToTimecode_frame_number 3723500); unfold MAX_SAFE_INTEGER; lia.
Defined.

(** ** Files refused before any parsing *)

(** X19: when a file is missing or the text of a file is blank, the
    action answers with an error that depends neither on the parsers nor
    on the clock: [Both files are required] or [Files appear to be empty]. *)
Theorem action_refuses_before_parsing :
  forall (whisperFile premiereFile : option string),
    (whisperFile = None \/ premiereFile = None \/
     (exists t, whisperFile = Some t /\ trim t = EmptyString) \/
     (exists t, premiereFile = Some t /\ trim t = EmptyString)) ->
    exists error details,
      (error = "Both files are required" \/ error = "Files appear to be empty") /\
      forall (parseWhisper : string -> outcome (list WhisperSegment))
             (parsePremiere : string -> outcome (list PremiereSegment))
             (isoNow : string),
        action parseWhisper parsePremiere isoNow whisperFile premiereFile
        = ActionError error details.
Proof.
  intros whisperFile premiereFile H. unfold action.
  destruct whisperFile as [whisperText|];
    [|exists "Both files are required", None; split; [now left|reflexivity]].
  destruct premiereFile as [premiereText|];
    [|exists "Both files are required", None; split; [now left|reflexivity]].
  exists "Files appear to be empty",
         (Some "Please check that your CSV files contain valid data.").
  split; [now right|]. intros parseWhisper parsePremiere isoNow.
  destruct H as [H|[H|[(t & [= <-] & Ht)|(t & [= <-] & Ht)]]];
    try discriminate H; rewrite Ht; cbn [falsy orb]; [reflexivity|].
  now rewrite orb_true_r.
Qed.

Lemma action_refuses_before_parsing_witness :
  exists error details,
    (error = "Both files are required" \/ error = "Files appear to be empty") /\
    forall (parseWhisper : string -> outcome (list WhisperSegment))
           (parsePremiere : string -> outcome (list PremiereSegment))
           (isoNow : string),
      action parseWhisper parsePremiere isoNow (Some "start,end,text") (Some "  ")
      = ActionError error details.
Proof.
  apply (action_refuses_before_parsing (Some "start,end,text") (Some "  ")).
  right. right. right. exists "  ". split; reflexivity.
Defined.

(** ** The two grouped texts, line by line *)

(** The blocks of the renderer cut the segments into consecutive groups. *)
Lemma blocks_cut_segments (blocks : list Block) :
  forall segments : list EnhancedSegment,
    flat_map entries blocks = map entryOf segments ->
    exists groups : list (string * list EnhancedSegment),
      List.concat (map snd groups) = segments /\
      map (fun g => {| heading := fst g; entries := map entryOf (snd g) |}) groups
      = blocks.
Proof.
  induction blocks as [|b blocks IH]; intros segments H; simpl in H.
  - symmetry in H. apply map_eq_nil in H. subst. now exists [].
  - symmetry in H. apply map_eq_app in H.
    destruct H as (l1 & l2 & -> & H1 & H2).
    destruct (IH l2 (eq_sym H2)) as (groups & Hc & Hm).
    exists ((heading b, l1) :: groups). simpl.
    rewrite Hc, Hm, H1. destruct b; now split.
Qed.

Lemma renderBlocks_groups (includeTimestamps : bool)
    (groups : list (string * list EnhancedSegment)) :
  renderBlocks (lineOf includeTimestamps)
    (map (fun g => {| heading := fst g; entries := map entryOf (snd g) |}) groups)
  = flatten
      (map (fun g =>
              "**" ++ fst g ++ "**" ++ nl
              ++ flatten
                   (map (fun seg => lineOf includeTimestamps (entryOf seg) ++ nl)
                      (snd g))
              ++ nl)
         groups).
Proof.
  unfold renderBlocks. rewrite map_map. f_equal.
  apply map_ext. intros g. unfold renderBlock. cbn [heading entries].
  now rewrite map_map.
Qed.

(** C9: for every aligned-segment sequence there is one cutting of the
    sequence into consecutive non-empty groups, each with a heading, of
    which both grouped texts are the render: the same headings in the same
    order, and under each heading one line per segment of the group.  The
    line of a segment in the clean render is its text, and its line in the
    render with timestamps is that line after the prefix
    [[startTimecode - endTimecode] ] of the segment's own start and end. *)
Theorem generateMarkdown_variants_same_blocks :
  forall segments : list EnhancedSegment,
    let cleanLine (seg : EnhancedSegment) := seg_text seg in
    let stampedLineOf (seg : EnhancedSegment) :=
      "[" ++ msToTimecode (startTime seg) ++ " - "
          ++ msToTimecode (endTime seg) ++ "] " ++ cleanLine seg in
    let render (line : EnhancedSegment -> string)
               (groups : list (string * list EnhancedSegment)) :=
      flatten
        (map (fun g =>
                "**" ++ fst g ++ "**" ++ nl
                ++ flatten (map (fun seg => line seg ++ nl) (snd g)) ++ nl)
           groups) in
    exists groups : list (string * list EnhancedSegment),
      List.concat (map snd groups) = segments /\
      Forall (fun g => snd g <> []) groups /\
      generateMarkdown segments true = render stampedLineOf groups /\
      generateMarkdown segments false = render cleanLine groups.
Proof.
  intros segments. cbv zeta.
  destruct (groupBlocks_entries segments) as [Hentries Hnonempty].
  destruct (blocks_cut_segments _ _ Hentries) as (groups & Hcut & Hblocks).
  exists groups. split; [exact Hcut|]. split.
  - rewrite <- Hblocks in Hnonempty. rewrite Forall_map in Hnonempty.
    eapply Forall_impl; [|exact Hnonempty].
    intros g Hg Hnil. apply Hg. cbn [entries]. now rewrite Hnil.
  - split; rewrite generateMarkdown_blocks, <- Hblocks, renderBlocks_groups;
      reflexivity.
Qed.
